(** * raft/sparse/cusparse_wrappers.h

    A shallow embedding of the cuSparse wrapper header of RAFT: the status
    decoder, the checking macro and the typed wrappers around the vendor's
    routines.  The vendor library is external to the header; a wrapper is
    therefore embedded as a program over the native calls it issues, and the
    program is run against an arbitrary implementation of those calls. *)

From Stdlib Require Import ZArith Ascii String DecimalString Sorted.
From stdpp Require Import base tactics option list sorting gmap strings.

Local Open Scope Z_scope.

(** ** Types of [cusparse_v2.h] and of the CUDA runtime *)

(** [cusparseStatus_t] is a C enumeration: the header switches over it and
    prints it with [%d], so a status is an integer and values outside the
    enumerators it names can reach it. *)
Definition cusparseStatus_t : Type := Z.

(** The handle, the stream and device pointers are opaque to the header. *)
Definition cusparseHandle_t : Type := Z.
Definition cudaStream_t : Type := Z.
Definition ptr : Type := Z.
Definition size_t : Type := Z.

Inductive cusparseIndexBase_t : Type :=
| CUSPARSE_INDEX_BASE_ZERO
| CUSPARSE_INDEX_BASE_ONE.

(** The enumerators the header names.  Their numeric values are fixed by the
    vendor's header, which the wrapper header only includes: they are taken
    as parameters. *)
Class cusparse_v2_h : Type := {
  CUSPARSE_STATUS_SUCCESS : cusparseStatus_t;
  CUSPARSE_STATUS_NOT_INITIALIZED : cusparseStatus_t;
  CUSPARSE_STATUS_ALLOC_FAILED : cusparseStatus_t;
  CUSPARSE_STATUS_INVALID_VALUE : cusparseStatus_t;
  CUSPARSE_STATUS_ARCH_MISMATCH : cusparseStatus_t;
  CUSPARSE_STATUS_EXECUTION_FAILED : cusparseStatus_t;
  CUSPARSE_STATUS_INTERNAL_ERROR : cusparseStatus_t;
  CUSPARSE_STATUS_MATRIX_TYPE_NOT_SUPPORTED : cusparseStatus_t
}.

(** The element types for which the header has a specialization (gather) or
    an overload (gemmi). *)
Inductive value_type : Type :=
| c_float
| c_double.

(** The native entry points the header calls, indexed by what a call hands
    back.  [cusparseXcoosort_bufferSizeExt] hands back its status and the
    content of the [size_t] its last argument points to. *)
Inductive native : Type -> Type :=
| cusparseSetStream (handle : cusparseHandle_t) (stream : cudaStream_t)
  : native cusparseStatus_t
| cusparseDgthr (handle : cusparseHandle_t) (nnz : Z) (y xVal xInd : ptr)
    (idxBase : cusparseIndexBase_t) : native cusparseStatus_t
| cusparseSgthr (handle : cusparseHandle_t) (nnz : Z) (y xVal xInd : ptr)
    (idxBase : cusparseIndexBase_t) : native cusparseStatus_t
| cusparseXcoo2csr (handle : cusparseHandle_t) (cooRowInd : ptr) (nnz m : Z)
    (csrRowPtr : ptr) (idxBase : cusparseIndexBase_t) : native cusparseStatus_t
| cusparseXcoosort_bufferSizeExt (handle : cusparseHandle_t) (m n nnz : Z)
    (cooRows cooCols : ptr) : native (cusparseStatus_t * size_t)
| cusparseXcoosortByRow (handle : cusparseHandle_t) (m n nnz : Z)
    (cooRows cooCols P pBuffer : ptr) : native cusparseStatus_t
| cusparseSgemmi (handle : cusparseHandle_t) (m n k nnz : Z) (alpha A : ptr)
    (lda : Z) (cscValB cscColPtrB cscRowIndB beta C : ptr) (ldc : Z)
  : native cusparseStatus_t
| cusparseDgemmi (handle : cusparseHandle_t) (m n k nnz : Z) (alpha A : ptr)
    (lda : Z) (cscValB cscColPtrB cscRowIndB beta C : ptr) (ldc : Z)
  : native cusparseStatus_t.

(** ** Exceptions and programs *)

(** [raft::cusparse_error]: a [raft::exception] built from a message. *)
Record cusparse_error : Type := Build_cusparse_error { what : string }.

(** A wrapper body: it returns, throws, or calls a native routine and goes
    on with what the routine handed back. *)
Inductive prog (A : Type) : Type :=
| Ret (a : A)
| Throw (e : cusparse_error)
| Call {R : Type} (c : native R) (k : R -> prog A).

Arguments Ret {A} a.
Arguments Throw {A} e.
Arguments Call {A R} c k.

Fixpoint prog_bind {A B : Type} (f : A -> prog B) (p : prog A) : prog B :=
  match p with
  | Ret a => f a
  | Throw e => Throw e
  | Call c k => Call c (fun r => prog_bind f (k r))
  end.

#[export] Instance prog_mret : MRet prog := @Ret.
#[export] Instance prog_mbind : MBind prog := @prog_bind.

(** A single native call. *)
Definition invoke {R : Type} (c : native R) : prog R := Call c Ret.

(** How a run ends, and the native calls it issued, oldest first. *)
Inductive outcome (A : Type) : Type :=
| Normal (a : A)
| Raised (e : cusparse_error).

Arguments Normal {A} a.
Arguments Raised {A} e.

Inductive call : Type :=
| Called {R : Type} (c : native R).

(** An implementation of the vendor library over a world [W]. *)
Definition vendor (W : Type) : Type := forall R : Type, native R -> W -> R * W.

Fixpoint run {W A : Type} (v : vendor W) (p : prog A) (w : W)
  : outcome A * W * list call :=
  match p with
  | Ret a => (Normal a, w, [])
  | Throw e => (Raised e, w, [])
  | Call c k =>
      let '(r, w1) := v _ c w in
      let '(o, w2, t) := run v (k r) w1 in
      (o, w2, Called c :: t)
  end.

Definition result {W A : Type} (x : outcome A * W * list call) : outcome A :=
  x.1.1.
Definition world_after {W A : Type} (x : outcome A * W * list call) : W :=
  x.1.2.
Definition calls {W A : Type} (x : outcome A * W * list call) : list call :=
  x.2.

(** ** Message formatting *)

Inductive fmt_arg : Type :=
| arg_s (s : string)
| arg_d (d : Z).

(** The two [printf] directives the header uses. *)
Fixpoint sprintf (fmt : string) (args : list fmt_arg) : string :=
  match fmt with
  | EmptyString => EmptyString
  | String "%"%char (String "s"%char rest) =>
      match args with
      | arg_s s :: args' => s +:+ sprintf rest args'
      | _ => sprintf rest (tail args)
      end
  | String "%"%char (String "d"%char rest) =>
      match args with
      | arg_d d :: args' => NilZero.string_of_int (Z.to_int d) +:+ sprintf rest args'
      | _ => sprintf rest (tail args)
      end
  | String c rest => String c (sprintf rest args)
  end.

(** Modelled from the spec: [SET_ERROR_MSG] of [raft/error.hpp], which is not
    among the sources.  The spec has the message of a failure embed the
    literal call expression, the numeric status and its decoded name: the
    macro appends to [msg] the location prefix and the format filled with its
    arguments. *)
Definition SET_ERROR_MSG (msg location_prefix fmt : string)
    (args : list fmt_arg) : string :=
  msg +:+ location_prefix +:+ sprintf fmt args.

Section Wrappers.

Context `{cusparse_v2_h}.

(** ** [raft::sparse::detail::cusparse_error_to_string]

    The branch under [CUDART_VERSION >= 10100] names [status], which is not
    in scope in the function; the other branch is the one embedded. *)
Definition cusparse_error_to_string (err : cusparseStatus_t) : string :=
  if decide (err = CUSPARSE_STATUS_SUCCESS) then
    "CUSPARSE_STATUS_SUCCESS"
  else if decide (err = CUSPARSE_STATUS_NOT_INITIALIZED) then
    "CUSPARSE_STATUS_NOT_INITIALIZED"
  else if decide (err = CUSPARSE_STATUS_ALLOC_FAILED) then
    "CUSPARSE_STATUS_ALLOC_FAILED"
  else if decide (err = CUSPARSE_STATUS_INVALID_VALUE) then
    "CUSPARSE_STATUS_INVALID_VALUE"
  else if decide (err = CUSPARSE_STATUS_ARCH_MISMATCH) then
    "CUSPARSE_STATUS_ARCH_MISMATCH"
  else if decide (err = CUSPARSE_STATUS_EXECUTION_FAILED) then
    "CUSPARSE_STATUS_EXECUTION_FAILED"
  else if decide (err = CUSPARSE_STATUS_INTERNAL_ERROR) then
    "CUSPARSE_STATUS_INTERNAL_ERROR"
  else if decide (err = CUSPARSE_STATUS_MATRIX_TYPE_NOT_SUPPORTED) then
    "CUSPARSE_STATUS_MATRIX_TYPE_NOT_SUPPORTED"
  else
    "CUSPARSE_STATUS_UNKNOWN".

(** ** [CUSPARSE_TRY]

    [call_text] is [#call], the text of the macro's argument. *)
Definition CUSPARSE_TRY (call_text : string) (call : prog cusparseStatus_t)
  : prog unit :=
  status ← call;
  if decide (CUSPARSE_STATUS_SUCCESS ≠ status) then
    let msg := EmptyString in
    let msg :=
      SET_ERROR_MSG msg "cuSparse error encountered at: "
        "call='%s', Reason=%d:%s"
        [arg_s call_text; arg_d status;
         arg_s (cusparse_error_to_string status)] in
    Throw (Build_cusparse_error msg)
  else
    Ret tt.

Definition CUSPARSE_CHECK := CUSPARSE_TRY.

(** ** The wrappers of [raft::sparse] *)

Definition cusparsegthr (T : value_type) (handle : cusparseHandle_t)
    (nnz : Z) (vals vals_sorted d_P : ptr) (stream : cudaStream_t)
  : prog cusparseStatus_t :=
  match T with
  | c_double =>
      CUSPARSE_CHECK "cusparseSetStream(handle, stream)"
        (invoke (cusparseSetStream handle stream));;
      invoke (cusparseDgthr handle nnz vals vals_sorted d_P
                CUSPARSE_INDEX_BASE_ZERO)
  | c_float =>
      CUSPARSE_CHECK "cusparseSetStream(handle, stream)"
        (invoke (cusparseSetStream handle stream));;
      invoke (cusparseSgthr handle nnz vals vals_sorted d_P
                CUSPARSE_INDEX_BASE_ZERO)
  end.

Definition cusparsecoo2csr (handle : cusparseHandle_t) (cooRowInd : ptr)
    (nnz m : Z) (csrRowPtr : ptr) (stream : cudaStream_t) : prog unit :=
  CUSPARSE_CHECK "cusparseSetStream(handle, stream)"
    (invoke (cusparseSetStream handle stream));;
  CUSPARSE_CHECK
    "cusparseXcoo2csr(handle, cooRowInd, nnz, m, csrRowPtr, CUSPARSE_INDEX_BASE_ZERO)"
    (invoke (cusparseXcoo2csr handle cooRowInd nnz m csrRowPtr
               CUSPARSE_INDEX_BASE_ZERO)).

(** [val] is the local the native routine writes through [&val]; the status
    of the call is what [CUSPARSE_CHECK] tests. *)
Definition cusparsecoosort_bufferSizeExt (handle : cusparseHandle_t)
    (m n nnz : Z) (cooRows cooCols : ptr) (stream : cudaStream_t)
  : prog size_t :=
  CUSPARSE_CHECK "cusparseSetStream(handle, stream)"
    (invoke (cusparseSetStream handle stream));;
  '(status, val) ← invoke (cusparseXcoosort_bufferSizeExt handle m n nnz
                             cooRows cooCols);
  CUSPARSE_CHECK
    "cusparseXcoosort_bufferSizeExt(handle, m, n, nnz, cooRows, cooCols, &val)"
    (Ret status);;
  Ret val.

Definition cusparsecoosortByRow (handle : cusparseHandle_t) (m n nnz : Z)
    (cooRows cooCols P pBuffer : ptr) (stream : cudaStream_t) : prog unit :=
  CUSPARSE_CHECK "cusparseSetStream(handle, stream)"
    (invoke (cusparseSetStream handle stream));;
  CUSPARSE_CHECK
    "cusparseXcoosortByRow(handle, m, n, nnz, cooRows, cooCols, P, pBuffer)"
    (invoke (cusparseXcoosortByRow handle m n nnz cooRows cooCols P pBuffer)).

Definition cusparsegemmi (T : value_type) (handle : cusparseHandle_t)
    (m n k nnz : Z) (alpha A : ptr) (lda : Z)
    (cscValB cscColPtrB cscRowIndB beta C : ptr) (ldc : Z)
  : prog cusparseStatus_t :=
  match T with
  | c_float =>
      invoke (cusparseSgemmi handle m n k nnz alpha A lda cscValB cscColPtrB
                cscRowIndB beta C ldc)
  | c_double =>
      invoke (cusparseDgemmi handle m n k nnz alpha A lda cscValB cscColPtrB
                cscRowIndB beta C ldc)
  end.

End Wrappers.

(** ** A scripted vendor library

    A test double: the world is the list of the statuses the next native
    calls hand back, in order; an exhausted script hands back [fallback]. *)
Definition scripted (fallback : cusparseStatus_t)
  : vendor (list cusparseStatus_t) :=
  fun R c =>
    match c in native R return list cusparseStatus_t -> R * list cusparseStatus_t with
    | cusparseSetStream _ _ => fun w => (hd fallback w, tail w)
    | cusparseDgthr _ _ _ _ _ _ => fun w => (hd fallback w, tail w)
    | cusparseSgthr _ _ _ _ _ _ => fun w => (hd fallback w, tail w)
    | cusparseXcoo2csr _ _ _ _ _ _ => fun w => (hd fallback w, tail w)
    | cusparseXcoosort_bufferSizeExt _ _ _ _ _ _ =>
        fun w => ((hd fallback w, 0), tail w)
    | cusparseXcoosortByRow _ _ _ _ _ _ _ _ => fun w => (hd fallback w, tail w)
    | cusparseSgemmi _ _ _ _ _ _ _ _ _ _ _ _ _ _ =>
        fun w => (hd fallback w, tail w)
    | cusparseDgemmi _ _ _ _ _ _ _ _ _ _ _ _ _ _ =>
        fun w => (hd fallback w, tail w)
    end.

(** ** A reference vendor library *)

(** The device: the live handles with the stream each is bound to, and the
    device arrays by base pointer.  An array of [float] or [double] holds the
    elements as integers; the routines modelled here only move them. *)
Record device : Type := Device {
  stream_of : gmap cusparseHandle_t cudaStream_t;
  memory : gmap ptr (list Z)
}.

(** [a[i]] for a C index. *)
Definition zlookup (a : list Z) (i : Z) : option Z :=
  if decide (0 ≤ i) then a !! Z.to_nat i else None.

(** Overwrite the leading elements of the array at [p]. *)
Definition store (p : ptr) (prefix : list Z) (d : device) : device :=
  {| stream_of := stream_of d;
     memory := alter (fun old => prefix ++ drop (length prefix) old) p
                 (memory d) |}.

(** Bind [stream] to [handle]. *)
Definition bind_stream (handle : cusparseHandle_t) (stream : cudaStream_t)
    (d : device) : device :=
  {| stream_of := <[handle := stream]> (stream_of d); memory := memory d |}.

Definition base_offset (idxBase : cusparseIndexBase_t) : Z :=
  match idxBase with
  | CUSPARSE_INDEX_BASE_ZERO => 0
  | CUSPARSE_INDEX_BASE_ONE => 1
  end.

(** The leading [n] elements of the array at [p], when it has that many. *)
Definition load (p : ptr) (n : Z) (d : device) : option (list Z) :=
  a ← memory d !! p;
  guard (0 ≤ n ≤ Z.of_nat (length a));;
  Some (take (Z.to_nat n) a).

(** Gather: [xVal[i] = y[xInd[i]]]. *)
Definition gather (y xInd : list Z) (base : Z) : option (list Z) :=
  mapM (fun i => zlookup y (i - base)) xInd.

(** Row pointers: entry [i] counts the coordinates of a row before [i]. *)
Definition rows_before (rows : list Z) (i : Z) : Z :=
  Z.of_nat (length (filter (fun r => r < i) rows)).

Definition row_pointers (rows : list Z) (m base : Z) : list Z :=
  (fun i => base + rows_before rows (base + i)) <$> seqZ 0 (m + 1).

(** Stable insertion sort of the coordinates [(row, column, position)] by
    row. *)
Definition coord : Type := Z * Z * Z.
Definition coord_row (x : coord) : Z := x.1.1.
Definition coord_col (x : coord) : Z := x.1.2.
Definition coord_pos (x : coord) : Z := x.2.

Fixpoint insert_by_row (x : coord) (l : list coord) : list coord :=
  match l with
  | [] => [x]
  | y :: l' =>
      if decide (coord_row x ≤ coord_row y) then x :: y :: l'
      else y :: insert_by_row x l'
  end.

Fixpoint sort_by_row (l : list coord) : list coord :=
  match l with
  | [] => []
  | x :: l' => insert_by_row x (sort_by_row l')
  end.

Definition coords (rows cols : list Z) : list coord :=
  zip (zip rows cols) (seqZ 0 (Z.of_nat (length rows))).

Section Reference.

Context `{cusparse_v2_h}.

(** What a routine does to the device when it accepts its arguments. *)
Definition completed (d : device) (o : option device)
  : cusparseStatus_t * device :=
  match o with
  | Some d' => (CUSPARSE_STATUS_SUCCESS, d')
  | None => (CUSPARSE_STATUS_INVALID_VALUE, d)
  end.

(** A routine on a handle that was never created is refused. *)
Definition on_handle (handle : cusparseHandle_t) (d : device)
    (o : option device) : cusparseStatus_t * device :=
  match stream_of d !! handle with
  | Some _ => completed d o
  | None => (CUSPARSE_STATUS_NOT_INITIALIZED, d)
  end.

(** Modelled from the spec: the stream-binding operation of the vendor
    library.  Binding is a write to the handle, and to nothing else. *)
Definition SetStream_ref (handle : cusparseHandle_t) (stream : cudaStream_t)
    (d : device) : cusparseStatus_t * device :=
  on_handle handle d (Some (bind_stream handle stream d)).

(** Modelled from the spec: the vendor's gather kernels.  They copy [nnz]
    elements from the source into the destination according to the
    permutation, [vals_sorted[i] = vals[P[i]]]; arguments that leave the
    arrays are refused. *)
Definition gthr_ref (handle : cusparseHandle_t) (nnz : Z) (y xVal xInd : ptr)
    (idxBase : cusparseIndexBase_t) (d : device)
  : cusparseStatus_t * device :=
  on_handle handle d
    (ind ← load xInd nnz d;
     _ ← load xVal nnz d;
     src ← memory d !! y;
     out ← gather src ind (base_offset idxBase);
     Some (store xVal out d)).

(** Modelled from the spec: the vendor's COO to CSR conversion.  It turns a
    coordinate row-index list into a compressed row-pointer array of length
    [m + 1]. *)
Definition coo2csr_ref (handle : cusparseHandle_t) (cooRowInd : ptr)
    (nnz m : Z) (csrRowPtr : ptr) (idxBase : cusparseIndexBase_t)
    (d : device) : cusparseStatus_t * device :=
  on_handle handle d
    (rows ← load cooRowInd nnz d;
     guard (0 ≤ m);;
     _ ← load csrRowPtr (m + 1) d;
     Some (store csrRowPtr (row_pointers rows m (base_offset idxBase)) d)).

(** Modelled from the spec: the query of the scratch bytes a sort by row
    needs.  The spec leaves the count open; one [int] per coordinate is taken
    here. *)
Definition coosort_bufferSizeExt_ref (handle : cusparseHandle_t)
    (m n nnz : Z) (cooRows cooCols : ptr) (d : device)
  : cusparseStatus_t * size_t * device :=
  let '(status, d') :=
    on_handle handle d
      (_ ← load cooRows nnz d; _ ← load cooCols nnz d; Some d) in
  (status, 4 * nnz, d').

(** Modelled from the spec: the vendor's sort by row.  It stably reorders
    the coordinate entries by row index in place and records the applied
    permutation in [P]. *)
Definition coosortByRow_ref (handle : cusparseHandle_t) (m n nnz : Z)
    (cooRows cooCols P pBuffer : ptr) (d : device)
  : cusparseStatus_t * device :=
  on_handle handle d
    (rows ← load cooRows nnz d;
     cols ← load cooCols nnz d;
     _ ← load P nnz d;
     let sorted := sort_by_row (coords rows cols) in
     Some (store P (coord_pos <$> sorted)
             (store cooCols (coord_col <$> sorted)
                (store cooRows (coord_row <$> sorted) d)))).

(** The reference library, over any implementation [rest] of the routines
    the model leaves out: the gemmi kernels, whose arithmetic is floating
    point. *)
Definition cusparse_ref (rest : vendor device) : vendor device :=
  fun R c =>
    match c in native R return device -> R * device with
    | cusparseSetStream handle stream => SetStream_ref handle stream
    | cusparseDgthr handle nnz y xVal xInd idxBase =>
        gthr_ref handle nnz y xVal xInd idxBase
    | cusparseSgthr handle nnz y xVal xInd idxBase =>
        gthr_ref handle nnz y xVal xInd idxBase
    | cusparseXcoo2csr handle cooRowInd nnz m csrRowPtr idxBase =>
        coo2csr_ref handle cooRowInd nnz m csrRowPtr idxBase
    | cusparseXcoosort_bufferSizeExt handle m n nnz cooRows cooCols =>
        coosort_bufferSizeExt_ref handle m n nnz cooRows cooCols
    | cusparseXcoosortByRow handle m n nnz cooRows cooCols P pBuffer =>
        coosortByRow_ref handle m n nnz cooRows cooCols P pBuffer
    | c => rest _ c
    end.

End Reference.

(** An implementation of the routines the reference leaves out: it does
    nothing and hands back [status]. *)
Definition unmodelled (status : cusparseStatus_t) : vendor device :=
  fun R c d => ((scripted status R c []).1, d).

(** The device of the gather scenario of the spec: a live handle,
    [vals = [10,20,30,40]] at 100, a destination of four elements at 200 and
    [P = [3,1,0,2]] at 300. *)
Definition gather_scenario : device :=
  {| stream_of := {[ 1 := 0 ]};
     memory := {[ 100 := [10; 20; 30; 40]; 200 := [0; 0; 0; 0];
                  300 := [3; 1; 0; 2] ]} |}.

(** A COO matrix of four entries over three rows: row indices at 100,
    column indices at 200, a permutation array at 300 and an array of five
    elements at 400. *)
Definition coo_scenario : device :=
  {| stream_of := {[ 1 := 0 ]};
     memory := {[ 100 := [2; 0; 1; 0]; 200 := [5; 6; 7; 8];
                  300 := [0; 0; 0; 0]; 400 := [0; 0; 0; 0; 0] ]} |}.

(** The enumerators as the vendor's header numbers them, for running the
    embedding on concrete inputs. *)
Definition toolkit_enumerators : cusparse_v2_h := {|
  CUSPARSE_STATUS_SUCCESS := 0;
  CUSPARSE_STATUS_NOT_INITIALIZED := 1;
  CUSPARSE_STATUS_ALLOC_FAILED := 2;
  CUSPARSE_STATUS_INVALID_VALUE := 3;
  CUSPARSE_STATUS_ARCH_MISMATCH := 4;
  CUSPARSE_STATUS_EXECUTION_FAILED := 6;
  CUSPARSE_STATUS_INTERNAL_ERROR := 7;
  CUSPARSE_STATUS_MATRIX_TYPE_NOT_SUPPORTED := 8
|}.

(** The status enumeration as the vendor's header declares it, with that
    numbering: the eight enumerators the wrapper header names and the two
    it does not, [CUSPARSE_STATUS_MAPPING_ERROR] and
    [CUSPARSE_STATUS_ZERO_PIVOT].  The vendor's header is not among the
    sources. *)
Definition toolkit_status_variants : list (cusparseStatus_t * string) :=
  [(0, "CUSPARSE_STATUS_SUCCESS");
   (1, "CUSPARSE_STATUS_NOT_INITIALIZED");
   (2, "CUSPARSE_STATUS_ALLOC_FAILED");
   (3, "CUSPARSE_STATUS_INVALID_VALUE");
   (4, "CUSPARSE_STATUS_ARCH_MISMATCH");
   (5, "CUSPARSE_STATUS_MAPPING_ERROR");
   (6, "CUSPARSE_STATUS_EXECUTION_FAILED");
   (7, "CUSPARSE_STATUS_INTERNAL_ERROR");
   (8, "CUSPARSE_STATUS_MATRIX_TYPE_NOT_SUPPORTED");
   (9, "CUSPARSE_STATUS_ZERO_PIVOT")].

(** No duplicate [case] label: C++ rejects a [switch] that has one. *)
Definition distinct_enumerators `{cusparse_v2_h} : Prop :=
  NoDup [CUSPARSE_STATUS_SUCCESS; CUSPARSE_STATUS_NOT_INITIALIZED;
         CUSPARSE_STATUS_ALLOC_FAILED; CUSPARSE_STATUS_INVALID_VALUE;
         CUSPARSE_STATUS_ARCH_MISMATCH; CUSPARSE_STATUS_EXECUTION_FAILED;
         CUSPARSE_STATUS_INTERNAL_ERROR;
         CUSPARSE_STATUS_MATRIX_TYPE_NOT_SUPPORTED].

(** What the spec asks of the decoder: each enumerator with its name. *)
Definition named_enumerators `{cusparse_v2_h}
  : list (cusparseStatus_t * string) :=
  [(CUSPARSE_STATUS_SUCCESS, "CUSPARSE_STATUS_SUCCESS");
   (CUSPARSE_STATUS_NOT_INITIALIZED, "CUSPARSE_STATUS_NOT_INITIALIZED");
   (CUSPARSE_STATUS_ALLOC_FAILED, "CUSPARSE_STATUS_ALLOC_FAILED");
   (CUSPARSE_STATUS_INVALID_VALUE, "CUSPARSE_STATUS_INVALID_VALUE");
   (CUSPARSE_STATUS_ARCH_MISMATCH, "CUSPARSE_STATUS_ARCH_MISMATCH");
   (CUSPARSE_STATUS_EXECUTION_FAILED, "CUSPARSE_STATUS_EXECUTION_FAILED");
   (CUSPARSE_STATUS_INTERNAL_ERROR, "CUSPARSE_STATUS_INTERNAL_ERROR");
   (CUSPARSE_STATUS_MATRIX_TYPE_NOT_SUPPORTED,
    "CUSPARSE_STATUS_MATRIX_TYPE_NOT_SUPPORTED")].

(** The message of the error [CUSPARSE_TRY] throws: the call text, the
    status as a number and its label. *)
Definition failure_message `{cusparse_v2_h} (call_text : string)
    (status : cusparseStatus_t) : string :=
  "cuSparse error encountered at: call='" +:+ call_text +:+ "', Reason="
  +:+ NilZero.string_of_int (Z.to_int status) +:+ ":"
  +:+ cusparse_error_to_string status.

(** A trace opens with the binding of [stream] to [handle]. *)
Definition binds_stream_first (handle : cusparseHandle_t)
    (stream : cudaStream_t) (t : list call) : Prop :=
  exists t', t = Called (cusparseSetStream handle stream) :: t'.

(** A trace in which the binding of [stream] to [handle] comes first and the
    native routine [op], when it is issued at all, right after it. *)
Definition stream_bound_before (handle : cusparseHandle_t)
    (stream : cudaStream_t) (op : call) (t : list call) : Prop :=
  binds_stream_first handle stream t
  /\ (t = [Called (cusparseSetStream handle stream)]
      \/ t = [Called (cusparseSetStream handle stream); op]).

(** A run that ended at a failed stream binding: the error of the binding
    was raised, the binding is the only native call issued, the world is the
    one the binding left, and whatever part of the world the binding leaves
    alone (the caller's buffers) is as it was before the run. *)
Definition stopped_at_bind `{cusparse_v2_h} {W A : Type} (v : vendor W)
    (handle : cusparseHandle_t) (stream : cudaStream_t) (w : W)
    (x : outcome A * W * list call) : Prop :=
  let bound := v _ (cusparseSetStream handle stream) w in
  result x = Raised (Build_cusparse_error
                       (failure_message "cusparseSetStream(handle, stream)"
                          bound.1))
  /\ calls x = [Called (cusparseSetStream handle stream)]
  /\ world_after x = bound.2
  /\ forall (B : Type) (buffers : W -> B),
       (forall w0 : W,
          buffers (v _ (cusparseSetStream handle stream) w0).2 = buffers w0) ->
       buffers (world_after x) = buffers w.

(** The order the sort by row sorts by. *)
Definition by_row (x y : coord) : Prop := coord_row x <= coord_row y.

(** A non-decreasing array. *)
Definition nondecreasing (a : list Z) : Prop :=
  forall (i j : nat) (x y : Z),
    a !! i = Some x -> a !! j = Some y -> (i <= j)%nat -> x <= y.

(** The handle a native call is issued on. *)
Definition handle_of (c : call) : cusparseHandle_t :=
  match c with
  | Called c' =>
      match c' with
      | cusparseSetStream handle _ => handle
      | cusparseDgthr handle _ _ _ _ _ => handle
      | cusparseSgthr handle _ _ _ _ _ => handle
      | cusparseXcoo2csr handle _ _ _ _ _ => handle
      | cusparseXcoosort_bufferSizeExt handle _ _ _ _ _ => handle
      | cusparseXcoosortByRow handle _ _ _ _ _ _ _ => handle
      | cusparseSgemmi handle _ _ _ _ _ _ _ _ _ _ _ _ _ => handle
      | cusparseDgemmi handle _ _ _ _ _ _ _ _ _ _ _ _ _ => handle
      end
  end.

Definition is_bind (c : call) : bool :=
  match c with
  | Called (cusparseSetStream _ _) => true
  | _ => false
  end.

(** A trace in which every native operation comes right after a stream
    binding on the handle the operation is issued on. *)
Inductive bound_trace : list call -> Prop :=
| bound_nil : bound_trace []
| bound_bind (handle : cusparseHandle_t) (stream : cudaStream_t)
    (t : list call) :
    bound_trace t ->
    bound_trace (Called (cusparseSetStream handle stream) :: t)
| bound_op (handle : cusparseHandle_t) (stream : cudaStream_t) (op : call)
    (t : list call) :
    is_bind op = false -> handle_of op = handle -> bound_trace t ->
    bound_trace (Called (cusparseSetStream handle stream) :: op :: t).

(** * Properties *)

Section Properties.

Context `{cusparse_v2_h}.

Lemma append_empty_r (s : string) : s +:+ "" = s.
Proof.
  induction s as [|c s IH]; [done |].
  change (String c (s +:+ "") = String c s). by rewrite IH.
Qed.

Lemma run_bind {W A B : Type} (v : vendor W) (p : prog A) (f : A -> prog B)
    (w : W) :
  run v (p ≫= f) w =
  match run v p w with
  | (Normal a, w1, t1) =>
      let '(o, w2, t2) := run v (f a) w1 in (o, w2, t1 ++ t2)
  | (Raised e, w1, t1) => (Raised e, w1, t1)
  end.
Proof.
  revert w. induction p as [a | e | R c k IH]; intros w; simpl.
  - change (Ret a ≫= f) with (f a). by destruct (run v (f a) w) as [[o w2] t2].
  - done.
  - change (Call c k ≫= f) with (Call c (fun r => k r ≫= f)). simpl.
    destruct (v R c w) as [r w1]. rewrite IH.
    destruct (run v (k r) w1) as [[[a | e] w2] t2]; [| done].
    by destruct (run v (f a) w2) as [[o w3] t3].
Qed.

Lemma thrown_message (call_text : string) (status : cusparseStatus_t) :
  SET_ERROR_MSG "" "cuSparse error encountered at: " "call='%s', Reason=%d:%s"
    [arg_s call_text; arg_d status; arg_s (cusparse_error_to_string status)]
  = failure_message call_text status.
Proof.
  unfold failure_message.
  generalize (cusparse_error_to_string status) as label; intros label.
  etrans;
    [| exact (f_equal
                (fun x => "cuSparse error encountered at: call='" +:+ call_text
                          +:+ "', Reason="
                          +:+ NilZero.string_of_int (Z.to_int status) +:+ ":"
                          +:+ x)
                (append_empty_r label))].
  reflexivity.
Qed.

(** The macro against any vendor: it runs its argument, and throws exactly
    when the argument returned a status other than success. *)
Lemma run_CUSPARSE_TRY {W : Type} (v : vendor W) (call_text : string)
    (call : prog cusparseStatus_t) (w : W) :
  run v (CUSPARSE_TRY call_text call) w =
  match run v call w with
  | (Normal status, w1, t1) =>
      if decide (status = CUSPARSE_STATUS_SUCCESS) then (Normal tt, w1, t1)
      else (Raised (Build_cusparse_error (failure_message call_text status)),
            w1, t1)
  | (Raised e, w1, t1) => (Raised e, w1, t1)
  end.
Proof.
  unfold CUSPARSE_TRY. rewrite run_bind.
  destruct (run v call w) as [[[status | e] w1] t1]; [| done].
  rewrite thrown_message.
  destruct (decide (CUSPARSE_STATUS_SUCCESS ≠ status)) as [Hne | Heq];
    destruct (decide (status = CUSPARSE_STATUS_SUCCESS)) as [Heq' | Hne'];
    simpl; rewrite ?app_nil_r; done.
Qed.

Lemma run_invoke {W R : Type} (v : vendor W) (c : native R) (w : W) :
  run v (invoke c) w = (Normal (v R c w).1, (v R c w).2, [Called c]).
Proof. simpl. by destruct (v R c w). Qed.

(** The first step every stream-taking wrapper makes: bind, then check. *)
Lemma run_bind_stream {W : Type} (v : vendor W) (handle : cusparseHandle_t)
    (stream : cudaStream_t) (w : W) :
  run v (CUSPARSE_CHECK "cusparseSetStream(handle, stream)"
           (invoke (cusparseSetStream handle stream))) w =
  let bound := v _ (cusparseSetStream handle stream) w in
  (if decide (bound.1 = CUSPARSE_STATUS_SUCCESS) then Normal tt
   else Raised (Build_cusparse_error
                  (failure_message "cusparseSetStream(handle, stream)"
                     bound.1)),
   bound.2, [Called (cusparseSetStream handle stream)]).
Proof.
  unfold CUSPARSE_CHECK. rewrite run_CUSPARSE_TRY, run_invoke. simpl.
  by destruct (decide _).
Qed.

(** A wrapper that binds the stream and then goes on with [rest]. *)
Lemma run_after_bind {W A : Type} (v : vendor W) (handle : cusparseHandle_t)
    (stream : cudaStream_t) (rest : prog A) (w : W) :
  run v (CUSPARSE_CHECK "cusparseSetStream(handle, stream)"
           (invoke (cusparseSetStream handle stream));; rest) w =
  let bound := v _ (cusparseSetStream handle stream) w in
  if decide (bound.1 = CUSPARSE_STATUS_SUCCESS) then
    let '(o, w2, t2) := run v rest bound.2 in
    (o, w2, Called (cusparseSetStream handle stream) :: t2)
  else
    (Raised (Build_cusparse_error
               (failure_message "cusparseSetStream(handle, stream)" bound.1)),
     bound.2, [Called (cusparseSetStream handle stream)]).
Proof.
  rewrite run_bind, run_bind_stream. simpl.
  destruct (decide _); [| done].
  by destruct (run v rest _) as [[o w2] t2].
Qed.

(** C1 (checking primitive). For every call text and status, the check of
    an already computed status throws exactly when the status is not
    success; on success it returns with the world as it was and no native
    call issued; on failure what it throws carries a message made of the
    call text, the status as a number and the label the decoder gives that
    status. *)
Theorem CUSPARSE_TRY_raises_iff_not_success (call_text : string)
    (s : cusparseStatus_t) :
  ((exists e, CUSPARSE_TRY call_text (Ret s) = Throw e)
   <-> s ≠ CUSPARSE_STATUS_SUCCESS)
  /\ (s = CUSPARSE_STATUS_SUCCESS ->
      CUSPARSE_TRY call_text (Ret s) = Ret tt
      /\ forall (W : Type) (v : vendor W) (w : W),
           run v (CUSPARSE_TRY call_text (Ret s)) w = (Normal tt, w, []))
  /\ (s ≠ CUSPARSE_STATUS_SUCCESS ->
      CUSPARSE_TRY call_text (Ret s) =
      Throw (Build_cusparse_error
               ("cuSparse error encountered at: call='" +:+ call_text
                +:+ "', Reason=" +:+ NilZero.string_of_int (Z.to_int s)
                +:+ ":" +:+ cusparse_error_to_string s))).
Proof.
  assert (Hstep : CUSPARSE_TRY call_text (Ret s) =
                  if decide (CUSPARSE_STATUS_SUCCESS ≠ s)
                  then Throw (Build_cusparse_error (failure_message call_text s))
                  else Ret tt).
  { unfold CUSPARSE_TRY. change (Ret s ≫= ?f) with (f s). simpl.
    by rewrite thrown_message. }
  rewrite Hstep. split; [| split].
  - destruct (decide (CUSPARSE_STATUS_SUCCESS ≠ s)) as [Hne | Heq].
    + split; [congruence | eauto].
    + split; [intros [e He]; discriminate | intros Hs; destruct Heq; congruence].
  - intros ->. destruct (decide _) as [Hne | _]; [by destruct Hne |]. done.
  - intros Hs. destruct (decide _) as [_ | Heq]; [done |].
    destruct Heq. congruence.
Qed.

(** The decoder yields the name the switch lists for the status, or the
    unknown label for a status the switch does not list. *)
Lemma decoded_listed_or_unknown (s : cusparseStatus_t) :
  (s, cusparse_error_to_string s) ∈ named_enumerators
  \/ (cusparse_error_to_string s = "CUSPARSE_STATUS_UNKNOWN"
      /\ s ∉ named_enumerators.*1).
Proof.
  unfold cusparse_error_to_string, named_enumerators.
  repeat (destruct (decide _) as [-> | ?];
          [left;
           repeat first [apply list_elem_of_here | apply list_elem_of_further]
          |]).
  right. split; [done |]. simpl. rewrite !not_elem_of_cons.
  repeat split; try done. apply not_elem_of_nil.
Qed.

Lemma one_name_per_value (variants : list (cusparseStatus_t * string))
    (c : cusparseStatus_t) (a b : string) :
  NoDup variants.*1 -> (c, a) ∈ variants -> (c, b) ∈ variants -> a = b.
Proof.
  induction variants as [| [c' x] variants IH]; simpl; intros Hnd Ha Hb.
  - by apply elem_of_nil in Ha.
  - apply NoDup_cons in Hnd as [Hfresh Hnd].
    apply elem_of_cons in Ha as [Ha | Ha], Hb as [Hb | Hb].
    + congruence.
    + injection Ha as -> ->. destruct Hfresh.
      by apply (list_elem_of_fmap_2 fst) in Hb.
    + injection Hb as -> ->. destruct Hfresh.
      by apply (list_elem_of_fmap_2 fst) in Ha.
    + by apply IH.
Qed.

(** C2 (amended). Take the status enumeration of the vendor's header, each
    variant with its name, no value twice, the eight enumerators of the
    switch among them.  The decoder maps a variant the switch lists to its
    name, a variant the switch does not list to the unknown label, and a
    value outside the enumeration to the unknown label; whatever the
    status, it yields the unknown label or one of the eight names. *)
Theorem cusparse_error_to_string_listed_or_unknown
    (variants : list (cusparseStatus_t * string))
    (Hvalues : NoDup variants.*1)
    (Hlisted : named_enumerators ⊆ variants) :
  (forall (c : cusparseStatus_t) (name : string),
     (c, name) ∈ variants ->
     (c, name) ∈ named_enumerators ->
     cusparse_error_to_string c = name)
  /\ (forall (c : cusparseStatus_t) (name : string),
        (c, name) ∈ variants ->
        (c, name) ∉ named_enumerators ->
        cusparse_error_to_string c = "CUSPARSE_STATUS_UNKNOWN")
  /\ (forall s : cusparseStatus_t,
        s ∉ variants.*1 ->
        cusparse_error_to_string s = "CUSPARSE_STATUS_UNKNOWN")
  /\ (forall s : cusparseStatus_t,
        cusparse_error_to_string s
        ∈ "CUSPARSE_STATUS_UNKNOWN" :: named_enumerators.*2).
Proof.
  split; [| split; [| split]].
  - intros c name Hc Hin.
    destruct (decoded_listed_or_unknown c) as [Hd | [_ Hout]].
    + eapply one_name_per_value; [exact Hvalues | by apply Hlisted | exact Hc].
    + destruct Hout. by apply (list_elem_of_fmap_2 fst) in Hin.
  - intros c name Hc Hout.
    destruct (decoded_listed_or_unknown c) as [Hd | [Hu _]]; [| exact Hu].
    destruct Hout.
    by rewrite <- (one_name_per_value variants c _ name Hvalues
                     (Hlisted _ Hd) Hc).
  - intros s Hs.
    destruct (decoded_listed_or_unknown s) as [Hd | [Hu _]]; [| exact Hu].
    destruct Hs. apply Hlisted in Hd.
    by apply (list_elem_of_fmap_2 fst) in Hd.
  - intros s.
    destruct (decoded_listed_or_unknown s) as [Hd | [-> _]].
    + apply list_elem_of_further. by apply (list_elem_of_fmap_2 snd) in Hd.
    + apply list_elem_of_here.
Qed.

Section AnyVendor.

Context {W : Type} (v : vendor W) (w : W).
Context (handle : cusparseHandle_t) (stream : cudaStream_t).
Context (m n k nnz lda ldc : Z).
Context (vals vals_sorted d_P cooRowInd csrRowPtr cooRows cooCols P pBuffer
         alpha A cscValB cscColPtrB cscRowIndB beta C : ptr).

Local Abbreviation bind := (cusparseSetStream handle stream).
Local Abbreviation Dgthr :=
  (cusparseDgthr handle nnz vals vals_sorted d_P CUSPARSE_INDEX_BASE_ZERO).
Local Abbreviation Sgthr :=
  (cusparseSgthr handle nnz vals vals_sorted d_P CUSPARSE_INDEX_BASE_ZERO).
Local Abbreviation Xcoo2csr :=
  (cusparseXcoo2csr handle cooRowInd nnz m csrRowPtr CUSPARSE_INDEX_BASE_ZERO).
Local Abbreviation XbufferSizeExt :=
  (cusparseXcoosort_bufferSizeExt handle m n nnz cooRows cooCols).
Local Abbreviation XsortByRow :=
  (cusparseXcoosortByRow handle m n nnz cooRows cooCols P pBuffer).
Local Abbreviation Sgemmi :=
  (cusparseSgemmi handle m n k nnz alpha A lda cscValB cscColPtrB cscRowIndB
     beta C ldc).
Local Abbreviation Dgemmi :=
  (cusparseDgemmi handle m n k nnz alpha A lda cscValB cscColPtrB cscRowIndB
     beta C ldc).

Lemma run_cusparsegthr (T : value_type) :
  run v (cusparsegthr T handle nnz vals vals_sorted d_P stream) w =
  let bound := v _ bind w in
  let gthr := match T with c_double => Dgthr | c_float => Sgthr end in
  if decide (bound.1 = CUSPARSE_STATUS_SUCCESS) then
    (Normal (v _ gthr bound.2).1, (v _ gthr bound.2).2,
     [Called bind; Called gthr])
  else
    (Raised (Build_cusparse_error
               (failure_message "cusparseSetStream(handle, stream)" bound.1)),
     bound.2, [Called bind]).
Proof.
  destruct T; unfold cusparsegthr; rewrite run_after_bind; cbv zeta; rewrite run_invoke; simpl;
    by destruct (decide _).
Qed.

Lemma run_cusparsecoo2csr :
  run v (cusparsecoo2csr handle cooRowInd nnz m csrRowPtr stream) w =
  let bound := v _ bind w in
  if decide (bound.1 = CUSPARSE_STATUS_SUCCESS) then
    let done := v _ Xcoo2csr bound.2 in
    (if decide (done.1 = CUSPARSE_STATUS_SUCCESS) then Normal tt
     else Raised (Build_cusparse_error
                    (failure_message
                       "cusparseXcoo2csr(handle, cooRowInd, nnz, m, csrRowPtr, CUSPARSE_INDEX_BASE_ZERO)"
                       done.1)),
     done.2, [Called bind; Called Xcoo2csr])
  else
    (Raised (Build_cusparse_error
               (failure_message "cusparseSetStream(handle, stream)" bound.1)),
     bound.2, [Called bind]).
Proof.
  unfold cusparsecoo2csr. rewrite run_after_bind. cbv zeta.
  unfold CUSPARSE_CHECK. rewrite run_CUSPARSE_TRY, run_invoke. simpl.
  destruct (decide _); [| done]. by destruct (decide _).
Qed.

Lemma run_cusparsecoosort_bufferSizeExt :
  run v (cusparsecoosort_bufferSizeExt handle m n nnz cooRows cooCols stream) w
  =
  let bound := v _ bind w in
  if decide (bound.1 = CUSPARSE_STATUS_SUCCESS) then
    let done := v _ XbufferSizeExt bound.2 in
    (if decide (done.1.1 = CUSPARSE_STATUS_SUCCESS) then Normal done.1.2
     else Raised (Build_cusparse_error
                    (failure_message
                       "cusparseXcoosort_bufferSizeExt(handle, m, n, nnz, cooRows, cooCols, &val)"
                       done.1.1)),
     done.2, [Called bind; Called XbufferSizeExt])
  else
    (Raised (Build_cusparse_error
               (failure_message "cusparseSetStream(handle, stream)" bound.1)),
     bound.2, [Called bind]).
Proof.
  unfold cusparsecoosort_bufferSizeExt. rewrite run_after_bind. cbv zeta.
  rewrite run_bind, run_invoke.
  destruct (decide _); [| done].
  destruct (v _ XbufferSizeExt _) as [[status val] w2]. cbn [fst snd].
  rewrite run_bind. unfold CUSPARSE_CHECK. rewrite run_CUSPARSE_TRY. simpl.
  by destruct (decide _).
Qed.

Lemma run_cusparsecoosortByRow :
  run v (cusparsecoosortByRow handle m n nnz cooRows cooCols P pBuffer stream)
    w =
  let bound := v _ bind w in
  if decide (bound.1 = CUSPARSE_STATUS_SUCCESS) then
    let done := v _ XsortByRow bound.2 in
    (if decide (done.1 = CUSPARSE_STATUS_SUCCESS) then Normal tt
     else Raised (Build_cusparse_error
                    (failure_message
                       "cusparseXcoosortByRow(handle, m, n, nnz, cooRows, cooCols, P, pBuffer)"
                       done.1)),
     done.2, [Called bind; Called XsortByRow])
  else
    (Raised (Build_cusparse_error
               (failure_message "cusparseSetStream(handle, stream)" bound.1)),
     bound.2, [Called bind]).
Proof.
  unfold cusparsecoosortByRow. rewrite run_after_bind. cbv zeta.
  unfold CUSPARSE_CHECK. rewrite run_CUSPARSE_TRY, run_invoke. simpl.
  destruct (decide _); [| done]. by destruct (decide _).
Qed.

Lemma run_cusparsegemmi (T : value_type) :
  run v (cusparsegemmi T handle m n k nnz alpha A lda cscValB cscColPtrB
           cscRowIndB beta C ldc) w =
  let gemmi := match T with c_float => Sgemmi | c_double => Dgemmi end in
  (Normal (v _ gemmi w).1, (v _ gemmi w).2, [Called gemmi]).
Proof. destruct T; unfold cusparsegemmi; by rewrite run_invoke. Qed.

(** C3 (amended). Every specialization that takes a stream (gather for
    double and float, COO to CSR, the sort buffer sizing, the sort by row)
    issues the binding of the caller's stream to the handle first and its
    native routine only after it; the two gemmi overloads take no stream and
    issue their native routine alone. *)
Theorem stream_bound_before_native_routine :
  (forall T : value_type,
     stream_bound_before handle stream
       (Called (match T with c_double => Dgthr | c_float => Sgthr end))
       (calls (run v (cusparsegthr T handle nnz vals vals_sorted d_P stream)
                 w)))
  /\ stream_bound_before handle stream (Called Xcoo2csr)
       (calls (run v (cusparsecoo2csr handle cooRowInd nnz m csrRowPtr stream)
                 w))
  /\ stream_bound_before handle stream (Called XbufferSizeExt)
       (calls (run v (cusparsecoosort_bufferSizeExt handle m n nnz cooRows
                        cooCols stream) w))
  /\ stream_bound_before handle stream (Called XsortByRow)
       (calls (run v (cusparsecoosortByRow handle m n nnz cooRows cooCols P
                        pBuffer stream) w))
  /\ (forall T : value_type,
        calls (run v (cusparsegemmi T handle m n k nnz alpha A lda cscValB
                        cscColPtrB cscRowIndB beta C ldc) w)
        = [Called (match T with c_float => Sgemmi | c_double => Dgemmi end)]).
Proof.
  unfold stream_bound_before, binds_stream_first.
  repeat split; try intros T;
    rewrite ?run_cusparsegthr, ?run_cusparsecoo2csr,
      ?run_cusparsecoosort_bufferSizeExt, ?run_cusparsecoosortByRow,
      ?run_cusparsegemmi;
    cbv zeta; try destruct (decide _); simpl; eauto.
Qed.

(** C4 (amended). For both element types the gather wrapper checks the
    status of the stream binding only: when the binding fails its error is
    raised, and when it succeeds the status of the native gather routine,
    success or not, is returned to the caller unchanged and nothing is
    raised. *)
Theorem cusparsegthr_returns_native_status (T : value_type) :
  let bound := v _ bind w in
  let gthr := match T with c_double => Dgthr | c_float => Sgthr end in
  let r := run v (cusparsegthr T handle nnz vals vals_sorted d_P stream) w in
  (bound.1 ≠ CUSPARSE_STATUS_SUCCESS ->
   result r = Raised (Build_cusparse_error
                        (failure_message "cusparseSetStream(handle, stream)"
                           bound.1)))
  /\ (bound.1 = CUSPARSE_STATUS_SUCCESS ->
      r = (Normal (v _ gthr bound.2).1, (v _ gthr bound.2).2,
           [Called bind; Called gthr])).
Proof.
  cbv zeta. rewrite run_cusparsegthr. cbv zeta.
  split; intros Hb; by destruct (decide _).
Qed.

(** C5 (amended). For both element types the gemmi wrapper hands the
    status of the native gemmi routine to the caller as it is and never
    raises, whatever the vendor does.  Of the other wrappers the gather
    wrapper does the same with the status of its native routine once the
    binding has succeeded, while the conversion, the buffer sizing and the
    sort by row raise when their native routine hands back a status other
    than success. *)
Theorem cusparsegemmi_returns_raw_status (T : value_type) :
  let gemmi := match T with c_float => Sgemmi | c_double => Dgemmi end in
  let r := run v (cusparsegemmi T handle m n k nnz alpha A lda cscValB
                    cscColPtrB cscRowIndB beta C ldc) w in
  let bound := v _ bind w in
  r = (Normal (v _ gemmi w).1, (v _ gemmi w).2, [Called gemmi])
  /\ (forall e : cusparse_error, result r ≠ Raised e)
  /\ (bound.1 = CUSPARSE_STATUS_SUCCESS ->
      (forall T' : value_type,
         result (run v (cusparsegthr T' handle nnz vals vals_sorted d_P
                          stream) w)
         = Normal (v _ (match T' with
                        | c_double => Dgthr
                        | c_float => Sgthr
                        end) bound.2).1)
      /\ ((v _ Xcoo2csr bound.2).1 ≠ CUSPARSE_STATUS_SUCCESS ->
          exists e, result (run v (cusparsecoo2csr handle cooRowInd nnz m
                                     csrRowPtr stream) w) = Raised e)
      /\ ((v _ XbufferSizeExt bound.2).1.1 ≠ CUSPARSE_STATUS_SUCCESS ->
          exists e, result (run v (cusparsecoosort_bufferSizeExt handle m n
                                     nnz cooRows cooCols stream) w)
                    = Raised e)
      /\ ((v _ XsortByRow bound.2).1 ≠ CUSPARSE_STATUS_SUCCESS ->
          exists e, result (run v (cusparsecoosortByRow handle m n nnz
                                     cooRows cooCols P pBuffer stream) w)
                    = Raised e)).
Proof.
  cbv zeta. rewrite run_cusparsegemmi. cbv zeta.
  split; [done |]. split; [done |].
  intros Hb. repeat split; try intros T'; try intros Hop;
    rewrite ?run_cusparsegthr, ?run_cusparsecoo2csr,
      ?run_cusparsecoosort_bufferSizeExt, ?run_cusparsecoosortByRow;
    cbv zeta; rewrite decide_True by done; try done;
    rewrite decide_False by done; simpl; eauto.
Qed.

(** C10. When the stream binding hands back a status other than success,
    each wrapper that binds a stream raises the error of the binding with
    the binding as the only native call issued: the operation's native
    routine is not invoked, the world is the one the binding left, and the
    buffers, which the binding leaves alone, are as they were. *)
Theorem bind_failure_stops_before_native_routine
    (Hfail : (v _ bind w).1 ≠ CUSPARSE_STATUS_SUCCESS) :
  (forall T : value_type,
     stopped_at_bind v handle stream w
       (run v (cusparsegthr T handle nnz vals vals_sorted d_P stream) w))
  /\ stopped_at_bind v handle stream w
       (run v (cusparsecoo2csr handle cooRowInd nnz m csrRowPtr stream) w)
  /\ stopped_at_bind v handle stream w
       (run v (cusparsecoosort_bufferSizeExt handle m n nnz cooRows cooCols
                 stream) w)
  /\ stopped_at_bind v handle stream w
       (run v (cusparsecoosortByRow handle m n nnz cooRows cooCols P pBuffer
                 stream) w).
Proof.
  unfold stopped_at_bind, result, calls, world_after.
  repeat split; try intros T;
    rewrite ?run_cusparsegthr, ?run_cusparsecoo2csr,
      ?run_cusparsecoosort_bufferSizeExt, ?run_cusparsecoosortByRow;
    cbv zeta; destruct (decide _); try done; simpl; intros; auto.
Qed.

End AnyVendor.

End Properties.

(** * The reference library *)

Section SortByRow.

Lemma insert_by_row_perm (x : coord) (l : list coord) :
  insert_by_row x l ≡ₚ x :: l.
Proof.
  induction l as [|y l IH]; simpl; [done |].
  destruct (decide _); [done |]. rewrite IH. apply Permutation_swap.
Qed.

Lemma sort_by_row_perm (l : list coord) : sort_by_row l ≡ₚ l.
Proof.
  induction l as [|x l IH]; simpl; [done |].
  by rewrite insert_by_row_perm, IH.
Qed.

Lemma insert_by_row_sorted (x : coord) (l : list coord) :
  StronglySorted by_row l -> StronglySorted by_row (insert_by_row x l).
Proof.
  induction 1 as [|y l Hl IH Hy]; simpl.
  - repeat constructor.
  - destruct (decide (coord_row x <= coord_row y)) as [Hxy | Hxy].
    + constructor; [by constructor |].
      constructor; [done |].
      eapply Forall_impl; [exact Hy |]. unfold by_row. intros z Hz. lia.
    + constructor; [done |].
      rewrite insert_by_row_perm. constructor; [| done].
      unfold by_row. lia.
Qed.

Lemma sort_by_row_sorted (l : list coord) :
  StronglySorted by_row (sort_by_row l).
Proof.
  induction l as [|x l IH]; simpl; [constructor |].
  by apply insert_by_row_sorted.
Qed.

Lemma sorted_rows_nondecreasing (l : list coord) :
  StronglySorted by_row l -> nondecreasing (coord_row <$> l).
Proof.
  induction 1 as [|x l Hl IH Hx]; intros i j a b Hi Hj Hij.
  - apply lookup_lt_Some in Hi. simpl in Hi. lia.
  - destruct i as [|i], j as [|j]; simplify_eq/=; try lia.
    + apply list_lookup_fmap_Some in Hj as (y & -> & Hy).
      rewrite Forall_forall in Hx. apply Hx.
      by eapply list_elem_of_lookup_2.
    + eapply IH; [exact Hi | exact Hj | lia].
Qed.

(** Each coordinate carries the position its row and column came from. *)
Lemma coords_origin (rows cols : list Z) (x : coord) :
  x ∈ coords rows cols ->
  0 <= coord_pos x
  /\ rows !! Z.to_nat (coord_pos x) = Some (coord_row x)
  /\ cols !! Z.to_nat (coord_pos x) = Some (coord_col x).
Proof.
  intros (i & Hi)%list_elem_of_lookup_1. unfold coords in Hi.
  destruct x as [[r c] p].
  apply lookup_zip_Some in Hi as [Hrc Hp].
  apply lookup_zip_Some in Hrc as [Hr Hc].
  apply lookup_seqZ in Hp as [-> _]. simpl.
  rewrite Z.add_0_l, Nat2Z.id. split; [lia | done].
Qed.

Lemma coords_positions (rows cols : list Z) :
  length rows = length cols ->
  coord_pos <$> coords rows cols = seqZ 0 (Z.of_nat (length rows)).
Proof.
  intros Hlen. unfold coords.
  apply (snd_zip (zip rows cols) (seqZ 0 (Z.of_nat (length rows)))).
  rewrite length_seqZ, length_zip. lia.
Qed.

End SortByRow.

Section RowPointers.

Lemma rows_before_mono (rows : list Z) (i j : Z) :
  i <= j -> rows_before rows i <= rows_before rows j.
Proof.
  intros Hij. unfold rows_before. apply inj_le.
  induction rows as [|r rows IH]; simpl; [done |].
  rewrite !filter_cons.
  destruct (decide (r < i)), (decide (r < j)); simpl; lia.
Qed.

Lemma rows_before_none (rows : list Z) (i : Z) :
  Forall (fun r => i <= r) rows -> rows_before rows i = 0.
Proof.
  unfold rows_before. induction 1 as [|r rows Hr _ IH]; simpl; [done |].
  rewrite filter_cons. destruct (decide (r < i)); [lia | done].
Qed.

Lemma rows_before_all (rows : list Z) (i : Z) :
  Forall (fun r => r < i) rows ->
  rows_before rows i = Z.of_nat (length rows).
Proof.
  unfold rows_before. induction 1 as [|r rows Hr _ IH]; simpl; [done |].
  rewrite filter_cons. destruct (decide (r < i)); [simpl; lia | done].
Qed.

Lemma length_row_pointers (rows : list Z) (m base : Z) :
  length (row_pointers rows m base) = Z.to_nat (m + 1).
Proof. unfold row_pointers. by rewrite length_fmap, length_seqZ. Qed.

Lemma lookup_row_pointers (rows : list Z) (m base : Z) (i : nat) :
  Z.of_nat i <= m ->
  row_pointers rows m base !! i
  = Some (base + rows_before rows (base + Z.of_nat i)).
Proof.
  intros Hi. unfold row_pointers. rewrite list_lookup_fmap.
  rewrite (lookup_seqZ_lt 0 (m + 1) i) by lia. done.
Qed.

Lemma row_pointers_nondecreasing (rows : list Z) (m base : Z) :
  nondecreasing (row_pointers rows m base).
Proof.
  intros i j x y Hi Hj Hij.
  assert (Z.of_nat j <= m).
  { apply lookup_lt_Some in Hj. rewrite length_row_pointers in Hj. lia. }
  rewrite lookup_row_pointers in Hi by lia.
  rewrite lookup_row_pointers in Hj by lia.
  simplify_eq. pose proof (rows_before_mono rows (base + Z.of_nat i)
                             (base + Z.of_nat j)). lia.
Qed.

End RowPointers.

Section Memory.

Lemma load_Some (p : ptr) (n : Z) (d : device) (a : list Z) :
  load p n d = Some a <->
  exists whole, memory d !! p = Some whole
                /\ 0 <= n <= Z.of_nat (length whole)
                /\ a = take (Z.to_nat n) whole.
Proof.
  unfold load. destruct (memory d !! p) as [whole|]; simpl.
  - case_guard; simpl; split.
    + intros [= <-]. eauto.
    + intros (? & [= <-] & _ & ->). done.
    + done.
    + intros (? & [= <-] & ? & _). done.
  - split; [done | intros (? & ? & _); done].
Qed.

Lemma load_length (p : ptr) (n : Z) (d : device) (a : list Z) :
  load p n d = Some a -> Z.of_nat (length a) = n.
Proof.
  intros (whole & _ & Hn & ->)%load_Some. rewrite length_take. lia.
Qed.

Lemma load_store_eq (p : ptr) (n : Z) (d : device) (a out : list Z) :
  load p n d = Some a -> length out = length a ->
  load p n (store p out d) = Some out.
Proof.
  intros Ha Hlen. pose proof (load_length _ _ _ _ Ha) as Hn.
  apply load_Some in Ha as (whole & Hp & Hwhole & _).
  apply load_Some. exists (out ++ drop (length out) whole).
  unfold store; simpl. rewrite lookup_alter_eq, Hp. simpl.
  split; [done |]. rewrite length_app, length_drop.
  split; [lia |]. rewrite take_app_length'; [done | lia].
Qed.

Lemma load_store_ne (p q : ptr) (n : Z) (d : device) (out : list Z) :
  p ≠ q -> load q n (store p out d) = load q n d.
Proof.
  intros Hpq. unfold load, store; simpl. by rewrite lookup_alter_ne.
Qed.

End Memory.

Section ReferenceRuns.

Context `{cusparse_v2_h} (rest : vendor device).

Lemma SetStream_ref_live (handle : cusparseHandle_t) (stream : cudaStream_t)
    (d : device) :
  is_Some (stream_of d !! handle) ->
  SetStream_ref handle stream d
  = (CUSPARSE_STATUS_SUCCESS, bind_stream handle stream d).
Proof. intros [s Hs]. unfold SetStream_ref, on_handle. by rewrite Hs. Qed.

Lemma SetStream_ref_dead (handle : cusparseHandle_t) (stream : cudaStream_t)
    (d : device) :
  stream_of d !! handle = None ->
  SetStream_ref handle stream d = (CUSPARSE_STATUS_NOT_INITIALIZED, d).
Proof. intros Hs. unfold SetStream_ref, on_handle. by rewrite Hs. Qed.

Lemma on_bound_handle (handle : cusparseHandle_t) (stream : cudaStream_t)
    (d : device) (o : option device) :
  on_handle handle (bind_stream handle stream d) o
  = completed (bind_stream handle stream d) o.
Proof. unfold on_handle, bind_stream; simpl. by rewrite lookup_insert_eq. Qed.

(** The gather wrapper on the reference library, for arguments that stay
    inside the arrays. *)
Lemma run_cusparsegthr_ref (T : value_type) (d : device)
    (handle : cusparseHandle_t) (stream : cudaStream_t) (nnz : Z)
    (vals vals_sorted d_P : ptr) (src ind : list Z) :
  is_Some (stream_of d !! handle) ->
  memory d !! vals = Some src ->
  load d_P nnz d = Some ind ->
  is_Some (load vals_sorted nnz d) ->
  Forall (fun p => 0 <= p < Z.of_nat (length src)) ind ->
  exists out,
    gather src ind 0 = Some out
    /\ run (cusparse_ref rest)
         (cusparsegthr T handle nnz vals vals_sorted d_P stream) d
       = (Normal CUSPARSE_STATUS_SUCCESS,
          store vals_sorted out (bind_stream handle stream d),
          [Called (cusparseSetStream handle stream);
           Called (match T with
                   | c_double =>
                       cusparseDgthr handle nnz vals vals_sorted d_P
                         CUSPARSE_INDEX_BASE_ZERO
                   | c_float =>
                       cusparseSgthr handle nnz vals vals_sorted d_P
                         CUSPARSE_INDEX_BASE_ZERO
                   end)])
    /\ load vals_sorted nnz
         (store vals_sorted out (bind_stream handle stream d)) = Some out.
Proof.
  intros Hlive Hsrc Hind [dst Hdst] Hrange.
  destruct (mapM_is_Some_2 (fun i => zlookup src (i - 0)) ind) as [out Hout].
  { eapply Forall_impl; [exact Hrange |]. intros p Hp. simpl in *.
    unfold zlookup. rewrite Z.sub_0_r. rewrite decide_True by lia.
    apply lookup_lt_is_Some. lia. }
  exists out. split; [exact Hout |].
  assert (Hlen : length out = length dst).
  { apply mapM_Some_1, Forall2_length in Hout.
    apply load_length in Hind, Hdst. lia. }
  split; [| by eapply load_store_eq].
  rewrite run_cusparsegthr. cbv zeta.
  change (cusparse_ref rest _ (cusparseSetStream handle stream) d)
    with (SetStream_ref handle stream d).
  rewrite SetStream_ref_live by done. cbn [fst snd].
  rewrite decide_True by done.
  assert (Hstep : gthr_ref handle nnz vals vals_sorted d_P
                    CUSPARSE_INDEX_BASE_ZERO (bind_stream handle stream d)
                  = (CUSPARSE_STATUS_SUCCESS,
                     store vals_sorted out (bind_stream handle stream d))).
  { unfold gthr_ref. rewrite on_bound_handle.
    change (load d_P nnz (bind_stream handle stream d))
      with (load d_P nnz d).
    change (load vals_sorted nnz (bind_stream handle stream d))
      with (load vals_sorted nnz d).
    change (memory (bind_stream handle stream d)) with (memory d).
    change (base_offset CUSPARSE_INDEX_BASE_ZERO) with 0.
    rewrite Hind, Hdst, Hsrc. cbn [mbind option_bind].
    fold (gather src ind 0) in Hout. by rewrite Hout. }
  destruct T;
    [change (cusparse_ref rest _ (cusparseSgthr ?a ?b ?c ?e ?f ?g))
       with (gthr_ref a b c e f g)
    |change (cusparse_ref rest _ (cusparseDgthr ?a ?b ?c ?e ?f ?g))
       with (gthr_ref a b c e f g)];
    by rewrite Hstep.
Qed.

(** C6 (gather). On the reference library, for a live handle and arguments
    that stay inside the arrays, the gather wrapper returns success and
    leaves [vals_sorted[i] = vals[P[i]]], zero based, for every [i < nnz];
    on [vals = [10,20,30,40]], [P = [3,1,0,2]], [nnz = 4] the destination is
    [[40,20,10,30]], for both element types. *)
Theorem cusparsegthr_gathers (T : value_type) :
  (forall (d : device) (handle : cusparseHandle_t) (stream : cudaStream_t)
          (nnz : Z) (vals vals_sorted d_P : ptr) (src ind : list Z),
     is_Some (stream_of d !! handle) ->
     memory d !! vals = Some src ->
     load d_P nnz d = Some ind ->
     is_Some (load vals_sorted nnz d) ->
     Forall (fun p => 0 <= p < Z.of_nat (length src)) ind ->
     let r := run (cusparse_ref rest)
                (cusparsegthr T handle nnz vals vals_sorted d_P stream) d in
     exists out,
       result r = Normal CUSPARSE_STATUS_SUCCESS
       /\ load vals_sorted nnz (world_after r) = Some out
       /\ forall i : nat,
            Z.of_nat i < nnz ->
            exists p x, ind !! i = Some p /\ zlookup src p = Some x
                        /\ out !! i = Some x)
  /\ (let r := run (cusparse_ref rest) (cusparsegthr T 1 4 100 200 300 7)
                 gather_scenario in
      result r = Normal CUSPARSE_STATUS_SUCCESS
      /\ load 200 4 (world_after r) = Some [40; 20; 10; 30]).
Proof.
  split.
  - intros d handle stream nnz vals vals_sorted d_P src ind
      Hlive Hsrc Hind Hdst Hrange r.
    destruct (run_cusparsegthr_ref T d handle stream nnz vals vals_sorted d_P
                src ind Hlive Hsrc Hind Hdst Hrange) as (out & Hout & Hrun & Hload).
    exists out. subst r. rewrite Hrun. unfold result, world_after. simpl.
    split; [done |]. split; [exact Hload |].
    intros i Hi. apply mapM_Some_1 in Hout.
    apply load_length in Hind.
    destruct (lookup_lt_is_Some_2 ind i) as [p Hp]; [lia |].
    destruct (Forall2_lookup_l _ _ _ _ _ Hout Hp) as (x & Hx & Hpx).
    exists p, x. rewrite Z.sub_0_r in Hpx. done.
  - destruct (run_cusparsegthr_ref T gather_scenario 1 7 4 100 200 300
                [10; 20; 30; 40] [3; 1; 0; 2])
      as (out & Hout & Hrun & Hload);
      [eexists; reflexivity | reflexivity | reflexivity
      | eexists; reflexivity | repeat constructor; simpl; lia |].
    cbv zeta. rewrite Hrun. unfold result, world_after. simpl.
    split; [done |]. rewrite Hload. vm_compute in Hout. congruence.
Qed.

(** C7 (COO to CSR). On the reference library, for a live handle, a
    zero-based row-index array of length [nnz] whose entries lie in
    [0, m) and a row-pointer array with room for [m + 1] entries, the
    conversion wrapper returns and leaves a row-pointer array of length
    [m + 1] that is non-decreasing, starts at 0 and ends at [nnz]. *)
Theorem cusparsecoo2csr_row_pointers (d : device)
    (handle : cusparseHandle_t) (stream : cudaStream_t)
    (cooRowInd : ptr) (nnz m : Z) (csrRowPtr : ptr) (rows : list Z) :
  is_Some (stream_of d !! handle) ->
  load cooRowInd nnz d = Some rows ->
  0 <= m ->
  is_Some (load csrRowPtr (m + 1) d) ->
  Forall (fun r => 0 <= r < m) rows ->
  let r := run (cusparse_ref rest)
             (cusparsecoo2csr handle cooRowInd nnz m csrRowPtr stream) d in
  exists csr,
    result r = Normal tt
    /\ load csrRowPtr (m + 1) (world_after r) = Some csr
    /\ Z.of_nat (length csr) = m + 1
    /\ nondecreasing csr
    /\ head csr = Some 0
    /\ last csr = Some nnz.
Proof.
  intros Hlive Hrows Hm [old Hold] Hvalid r.
  exists (row_pointers rows m 0).
  assert (Hlen : length (row_pointers rows m 0) = length old).
  { rewrite length_row_pointers. apply load_length in Hold. lia. }
  assert (Hrun : r = (Normal tt,
                      store csrRowPtr (row_pointers rows m 0)
                        (bind_stream handle stream d),
                      [Called (cusparseSetStream handle stream);
                       Called (cusparseXcoo2csr handle cooRowInd nnz m
                                 csrRowPtr CUSPARSE_INDEX_BASE_ZERO)])).
  { subst r. rewrite run_cusparsecoo2csr. cbv zeta.
    change (cusparse_ref rest _ (cusparseSetStream handle stream) d)
      with (SetStream_ref handle stream d).
    rewrite SetStream_ref_live by done. cbn [fst snd].
    rewrite decide_True by done.
    change (cusparse_ref rest _ (cusparseXcoo2csr ?a ?b ?c ?e ?f ?g))
      with (coo2csr_ref a b c e f g).
    unfold coo2csr_ref. rewrite on_bound_handle.
    change (load cooRowInd nnz (bind_stream handle stream d))
      with (load cooRowInd nnz d).
    change (load csrRowPtr (m + 1) (bind_stream handle stream d))
      with (load csrRowPtr (m + 1) d).
    change (base_offset CUSPARSE_INDEX_BASE_ZERO) with 0.
    rewrite Hrows, Hold. cbn [mbind option_bind].
    rewrite (option_guard_True (0 <= m)) by done. cbn [mbind option_bind completed fst snd].
    by rewrite decide_True. }
  rewrite Hrun. unfold result, world_after. cbn [fst snd].
  split; [done |].
  split; [by eapply load_store_eq |].
  split; [rewrite length_row_pointers; lia |].
  split; [apply row_pointers_nondecreasing |].
  split.
  - rewrite head_lookup, lookup_row_pointers by (simpl; lia). simpl.
    rewrite rows_before_none; [done |].
    eapply Forall_impl; [exact Hvalid |]. simpl. lia.
  - rewrite last_lookup, length_row_pointers.
    rewrite lookup_row_pointers by lia.
    replace (0 + Z.of_nat (Nat.pred (Z.to_nat (m + 1)))) with m by lia.
    rewrite rows_before_all.
    + apply load_length in Hrows. f_equal. lia.
    + eapply Forall_impl; [exact Hvalid |]. simpl. lia.
Qed.

Lemma failure_statuses :
  distinct_enumerators ->
  CUSPARSE_STATUS_NOT_INITIALIZED ≠ CUSPARSE_STATUS_SUCCESS
  /\ CUSPARSE_STATUS_INVALID_VALUE ≠ CUSPARSE_STATUS_SUCCESS.
Proof.
  unfold distinct_enumerators. intros [Hs _]%NoDup_cons.
  repeat (apply not_elem_of_cons in Hs as [? Hs]). split; congruence.
Qed.

Lemma length_coords (rows cols : list Z) :
  length rows = length cols -> length (coords rows cols) = length rows.
Proof.
  intros Hlen. unfold coords, coord. rewrite !length_zip, length_seqZ. lia.
Qed.

(** The sort by row of the reference on a bound handle. *)
Lemma coosortByRow_ref_bound (d : device) (handle : cusparseHandle_t)
    (stream : cudaStream_t) (m n nnz : Z) (cooRows cooCols P pBuffer : ptr) :
  let d1 := bind_stream handle stream d in
  coosortByRow_ref handle m n nnz cooRows cooCols P pBuffer d1 =
  match load cooRows nnz d, load cooCols nnz d, load P nnz d with
  | Some rows, Some cols, Some _ =>
      let sorted := sort_by_row (coords rows cols) in
      (CUSPARSE_STATUS_SUCCESS,
       store P (coord_pos <$> sorted)
         (store cooCols (coord_col <$> sorted)
            (store cooRows (coord_row <$> sorted) d1)))
  | _, _, _ => (CUSPARSE_STATUS_INVALID_VALUE, d1)
  end.
Proof.
  cbv zeta. unfold coosortByRow_ref. rewrite on_bound_handle.
  change (load cooRows nnz (bind_stream handle stream d))
    with (load cooRows nnz d).
  change (load cooCols nnz (bind_stream handle stream d))
    with (load cooCols nnz d).
  change (load P nnz (bind_stream handle stream d)) with (load P nnz d).
  destruct (load cooRows nnz d) as [rows|]; [| done].
  destruct (load cooCols nnz d) as [cols|]; [| done].
  by destruct (load P nnz d) as [perm|].
Qed.

(** C8 (sort by row). On the reference library, for row, column and
    permutation arrays that are three different arrays: the wrapper
    completes when the handle is live and the arrays hold [nnz] entries; and
    once it has completed, the row indices are non-decreasing, [P] is a
    permutation of [0 .. nnz-1], and every sorted row and column entry is the
    original entry at the position [P] records,
    [cols_sorted[i] = cols_original[P[i]]]. *)
Theorem cusparsecoosortByRow_sorts (Hdistinct : distinct_enumerators)
    (d : device) (handle : cusparseHandle_t) (stream : cudaStream_t)
    (m n nnz : Z) (cooRows cooCols P pBuffer : ptr) :
  cooRows ≠ cooCols -> cooRows ≠ P -> cooCols ≠ P ->
  let r := run (cusparse_ref rest)
             (cusparsecoosortByRow handle m n nnz cooRows cooCols P pBuffer
                stream) d in
  (is_Some (stream_of d !! handle) ->
   is_Some (load cooRows nnz d) ->
   is_Some (load cooCols nnz d) ->
   is_Some (load P nnz d) ->
   result r = Normal tt)
  /\ (result r = Normal tt ->
      exists rows cols rows' cols' perm,
        load cooRows nnz d = Some rows
        /\ load cooCols nnz d = Some cols
        /\ load cooRows nnz (world_after r) = Some rows'
        /\ load cooCols nnz (world_after r) = Some cols'
        /\ load P nnz (world_after r) = Some perm
        /\ nondecreasing rows'
        /\ perm ≡ₚ seqZ 0 nnz
        /\ forall i : nat,
             Z.of_nat i < nnz ->
             exists p x c,
               perm !! i = Some p
               /\ zlookup rows p = Some x /\ rows' !! i = Some x
               /\ zlookup cols p = Some c /\ cols' !! i = Some c).
Proof.
  intros Hrc HrP HcP r.
  destruct (failure_statuses Hdistinct) as [Hinit Hinvalid].
  subst r. rewrite run_cusparsecoosortByRow. cbv zeta.
  change (cusparse_ref rest _ (cusparseSetStream handle stream) d)
    with (SetStream_ref handle stream d).
  change (cusparse_ref rest _ (cusparseXcoosortByRow ?a ?b ?c ?e ?f ?g ?h ?i))
    with (coosortByRow_ref a b c e f g h i).
  split.
  - intros Hlive [rows Hrows] [cols Hcols] [pold HP].
    rewrite SetStream_ref_live by done. cbn [fst snd].
    rewrite decide_True by done.
    rewrite coosortByRow_ref_bound. cbv zeta. rewrite Hrows, Hcols, HP.
    cbn [fst snd]. by rewrite decide_True.
  - destruct (stream_of d !! handle) as [s0|] eqn:Hlive.
    2: { rewrite SetStream_ref_dead by done. cbn [fst snd].
         by rewrite decide_False. }
    rewrite SetStream_ref_live by eauto. cbn [fst snd].
    rewrite decide_True by done.
    rewrite coosortByRow_ref_bound. cbv zeta.
    destruct (load cooRows nnz d) as [rows|] eqn:Hrows;
      [| by cbn [fst snd]; rewrite decide_False].
    destruct (load cooCols nnz d) as [cols|] eqn:Hcols;
      [| by cbn [fst snd]; rewrite decide_False].
    destruct (load P nnz d) as [pold|] eqn:HP;
      [| by cbn [fst snd]; rewrite decide_False].
    cbn [fst snd]. intros _. unfold world_after. cbn [fst snd].
    set (d1 := bind_stream handle stream d).
    set (sorted := sort_by_row (coords rows cols)).
    assert (Hnr : Z.of_nat (length rows) = nnz) by by eapply load_length.
    assert (Hnc : Z.of_nat (length cols) = nnz) by by eapply load_length.
    assert (Hnp : Z.of_nat (length pold) = nnz) by by eapply load_length.
    assert (Hperm : sorted ≡ₚ coords rows cols) by apply sort_by_row_perm.
    assert (Hlen : length sorted = length rows).
    { rewrite Hperm. apply length_coords. lia. }
    exists rows, cols, (coord_row <$> sorted), (coord_col <$> sorted),
      (coord_pos <$> sorted).
    split; [done |]. split; [done |].
    split.
    { rewrite !load_store_ne by done.
      eapply load_store_eq; [exact Hrows |]. by rewrite length_fmap. }
    split.
    { rewrite load_store_ne by done.
      eapply load_store_eq; [rewrite load_store_ne by done; exact Hcols |].
      rewrite length_fmap. lia. }
    split.
    { eapply load_store_eq; [rewrite !load_store_ne by done; exact HP |].
      rewrite length_fmap. lia. }
    split; [apply sorted_rows_nondecreasing, sort_by_row_sorted |].
    split.
    { rewrite Hperm, coords_positions by lia. by rewrite Hnr. }
    intros i Hi.
    destruct (lookup_lt_is_Some_2 sorted i) as [x Hx]; [lia |].
    assert (Hin : x ∈ coords rows cols).
    { rewrite <- Hperm. by eapply list_elem_of_lookup_2. }
    apply coords_origin in Hin as (Hpos & Hr & Hc).
    exists (coord_pos x), (coord_row x), (coord_col x).
    rewrite !list_lookup_fmap, Hx. unfold zlookup.
    rewrite !decide_True by done. done.
Qed.

End ReferenceRuns.

(** * The claims on concrete inputs *)

Lemma toolkit_enumerators_distinct :
  @distinct_enumerators toolkit_enumerators.
Proof. apply (bool_decide_unpack _). vm_compute. reflexivity. Qed.

(** The check of status 3 throws with the formatted message, and the check
    of status 0 returns. *)
Lemma CUSPARSE_TRY_raises_iff_not_success_witness :
  @CUSPARSE_TRY toolkit_enumerators "cusparseSetStream(handle, stream)" (Ret 3)
  = Throw (Build_cusparse_error
             "cuSparse error encountered at: call='cusparseSetStream(handle, stream)', Reason=3:CUSPARSE_STATUS_INVALID_VALUE")
  /\ @CUSPARSE_TRY toolkit_enumerators "cusparseSetStream(handle, stream)"
       (Ret 0) = Ret tt.
Proof.
  split.
  - apply (@CUSPARSE_TRY_raises_iff_not_success toolkit_enumerators
             "cusparseSetStream(handle, stream)" 3).
    simpl. lia.
  - apply (@CUSPARSE_TRY_raises_iff_not_success toolkit_enumerators
             "cusparseSetStream(handle, stream)" 0).
    reflexivity.
Defined.

(** C2, as stated, fails: 5 is a variant of the vendor's enumeration,
    [CUSPARSE_STATUS_MAPPING_ERROR], and the decoder gives it the unknown
    label, not its name. *)
Lemma mapping_error_decoded_unknown :
  (5, "CUSPARSE_STATUS_MAPPING_ERROR") ∈ toolkit_status_variants
  /\ @cusparse_error_to_string toolkit_enumerators 5
     = "CUSPARSE_STATUS_UNKNOWN"
  /\ @cusparse_error_to_string toolkit_enumerators 5
     ≠ "CUSPARSE_STATUS_MAPPING_ERROR".
Proof.
  split; [apply (bool_decide_unpack _); vm_compute; reflexivity |].
  split; [reflexivity | vm_compute; discriminate].
Qed.

(** On the vendor's enumeration: 6, which the switch lists, decodes to its
    name; 9, a variant the switch does not list, and 12, outside the
    enumeration, decode to the unknown label. *)
Lemma cusparse_error_to_string_listed_or_unknown_witness :
  @cusparse_error_to_string toolkit_enumerators 6
  = "CUSPARSE_STATUS_EXECUTION_FAILED"
  /\ @cusparse_error_to_string toolkit_enumerators 9
     = "CUSPARSE_STATUS_UNKNOWN"
  /\ @cusparse_error_to_string toolkit_enumerators 12
     = "CUSPARSE_STATUS_UNKNOWN".
Proof.
  assert (Hvalues : NoDup toolkit_status_variants.*1)
    by (apply (bool_decide_unpack _); vm_compute; reflexivity).
  assert (Hlisted : @named_enumerators toolkit_enumerators
                    ⊆ toolkit_status_variants)
    by (apply (bool_decide_unpack _); vm_compute; reflexivity).
  destruct (@cusparse_error_to_string_listed_or_unknown toolkit_enumerators
              toolkit_status_variants Hvalues Hlisted)
    as (Hin & Hout & Hother & _).
  split; [| split].
  - apply Hin; apply (bool_decide_unpack _); vm_compute; reflexivity.
  - apply (Hout 9 "CUSPARSE_STATUS_ZERO_PIVOT");
      apply (bool_decide_unpack _); vm_compute; reflexivity.
  - apply Hother. apply (bool_decide_unpack _). vm_compute. reflexivity.
Defined.

(** C3, as stated, fails: the float gemmi overload issues its native
    routine with no stream binding before it, whatever stream one looks
    for. *)
Lemma cusparsegemmi_binds_no_stream :
  ~ exists stream : cudaStream_t,
      binds_stream_first 1 stream
        (calls (run (scripted 0)
                  (cusparsegemmi c_float 1 1 1 1 1 10 11 1 12 13 14 15 16 1)
                  [])).
Proof.
  intros (stream & t' & Ht'). vm_compute in Ht'. discriminate Ht'.
Qed.

(** C4, as stated, fails: with the binding succeeding and the native gather
    routine handing back status 6, the double gather wrapper returns 6 and
    raises nothing. *)
Lemma cusparsegthr_native_failure_not_raised :
  let r := run (scripted 0)
             (@cusparsegthr toolkit_enumerators c_double 1 4 100 200 300 7)
             [0; 6] in
  calls r = [Called (cusparseSetStream 1 7);
             Called (cusparseDgthr 1 4 100 200 300 CUSPARSE_INDEX_BASE_ZERO)]
  /\ result r = Normal 6
  /\ 6 ≠ @CUSPARSE_STATUS_SUCCESS toolkit_enumerators
  /\ ~ exists e : cusparse_error, result r = Raised e.
Proof.
  cbv zeta. split; [reflexivity |]. split; [reflexivity |].
  split; [simpl; lia |]. intros [e He]. vm_compute in He. discriminate He.
Qed.

(** The gather wrapper on a script where the binding fails, and on one where
    the native gather fails. *)
Lemma cusparsegthr_returns_native_status_witness :
  result (run (scripted 0)
            (@cusparsegthr toolkit_enumerators c_float 1 4 100 200 300 7) [1])
  = Raised (Build_cusparse_error
              (@failure_message toolkit_enumerators
                 "cusparseSetStream(handle, stream)" 1))
  /\ run (scripted 0)
       (@cusparsegthr toolkit_enumerators c_float 1 4 100 200 300 7) [0; 3]
     = (Normal 3, [],
        [Called (cusparseSetStream 1 7);
         Called (cusparseSgthr 1 4 100 200 300 CUSPARSE_INDEX_BASE_ZERO)]).
Proof.
  split.
  - apply (@cusparsegthr_returns_native_status toolkit_enumerators _
             (scripted 0) [1] 1 7 4 100 200 300 c_float).
    simpl. lia.
  - apply (@cusparsegthr_returns_native_status toolkit_enumerators _
             (scripted 0) [0; 3] 1 7 4 100 200 300 c_float).
    reflexivity.
Defined.

(** C5, as stated, fails: gemmi is not alone in handing back the status of
    its native routine.  With the binding succeeding and the native gather
    handing back 6, the float gather wrapper returns 6 and raises nothing,
    as gemmi does on a native status 6. *)
Lemma cusparsegthr_returns_raw_status_like_gemmi :
  let gemmi := run (scripted 0)
                 (cusparsegemmi c_float 1 3 3 1 4 10 11 1 12 13 14 15 16 1)
                 [6] in
  let gthr := run (scripted 0)
                (@cusparsegthr toolkit_enumerators c_float 1 4 100 200 300 7)
                [0; 6] in
  6 ≠ @CUSPARSE_STATUS_SUCCESS toolkit_enumerators
  /\ result gemmi = Normal 6
  /\ result gthr = Normal 6
  /\ ~ exists e : cusparse_error, result gthr = Raised e.
Proof.
  cbv zeta. split; [simpl; lia |]. split; [reflexivity |].
  split; [reflexivity |]. intros [e He]. vm_compute in He. discriminate He.
Qed.

(** On scripts where the binding succeeds and the native routine hands back
    a failure: gemmi and the gather return it, the sort by row raises. *)
Lemma cusparsegemmi_returns_raw_status_witness :
  result (run (scripted 0)
            (cusparsegemmi c_double 1 3 3 1 4 10 11 1 12 13 14 15 16 1) [1])
  = Normal 1
  /\ result (run (scripted 0)
               (@cusparsegthr toolkit_enumerators c_double 1 4 100 200 300 7)
               [0; 1])
     = Normal 1
  /\ exists e : cusparse_error,
       result (run (scripted 0)
                 (@cusparsecoosortByRow toolkit_enumerators 1 3 3 4 100 200
                    300 400 7) [0; 1]) = Raised e.
Proof.
  pose proof (@cusparsegemmi_returns_raw_status toolkit_enumerators _
                (scripted 0) [1] 1 7 3 3 1 4 1 1 100 200 300 100 200 100 200
                300 400 10 11 12 13 14 15 16 c_double) as (Hrun & _ & _).
  pose proof (@cusparsegemmi_returns_raw_status toolkit_enumerators _
                (scripted 0) [0; 1] 1 7 3 3 1 4 1 1 100 200 300 100 200 100
                200 300 400 10 11 12 13 14 15 16 c_double)
    as (_ & _ & Hothers).
  destruct Hothers as (Hgthr & _ & _ & Hsort); [reflexivity |].
  split; [cbv zeta in Hrun; rewrite Hrun; reflexivity |].
  split; [exact (Hgthr c_double) |].
  apply Hsort. simpl. lia.
Defined.

(** On the reference library a handle that was never created makes the
    binding fail: the sort by row raises, the binding is its only native
    call and the device memory is as it was. *)
Lemma bind_failure_stops_before_native_routine_witness :
  let v := @cusparse_ref toolkit_enumerators (unmodelled 7) in
  let r := run v
             (@cusparsecoosortByRow toolkit_enumerators 2 3 9 4 100 200 300
                400 7) coo_scenario in
  (exists e : cusparse_error, result r = Raised e)
  /\ calls r = [Called (cusparseSetStream 2 7)]
  /\ memory (world_after r) = memory coo_scenario.
Proof.
  intros v r.
  assert (Hfail : (v _ (cusparseSetStream 2 7) coo_scenario).1
                  ≠ @CUSPARSE_STATUS_SUCCESS toolkit_enumerators)
    by (vm_compute; lia).
  destruct (@bind_failure_stops_before_native_routine toolkit_enumerators _
              v coo_scenario 2 7 3 9 4 100 200 300 100 400 100 200 300 400
              Hfail) as (_ & _ & _ & Hres & Hcalls & _ & Hbuffers).
  split; [eexists; exact Hres |]. split; [exact Hcalls |].
  apply (Hbuffers _ memory). intros w0.
  change (memory (@SetStream_ref toolkit_enumerators 2 7 w0).2 = memory w0).
  unfold SetStream_ref, on_handle. destruct (_ !! _); reflexivity.
Defined.

(** The gather scenario of the spec, through the general statement. *)
Lemma cusparsegthr_gathers_witness :
  let r := run (@cusparse_ref toolkit_enumerators (unmodelled 7))
             (@cusparsegthr toolkit_enumerators c_double 1 4 100 200 300 7)
             gather_scenario in
  exists out : list Z,
    result r = Normal 0
    /\ load 200 4 (world_after r) = Some out
    /\ forall i : nat,
         Z.of_nat i < 4 ->
         exists p x, [3; 1; 0; 2] !! i = Some p
                     /\ zlookup [10; 20; 30; 40] p = Some x
                     /\ out !! i = Some x.
Proof.
  apply (proj1 (@cusparsegthr_gathers toolkit_enumerators (unmodelled 7)
                  c_double)
           gather_scenario 1 7 4 100 200 300 [10; 20; 30; 40] [3; 1; 0; 2]).
  - eexists; reflexivity.
  - reflexivity.
  - reflexivity.
  - eexists; reflexivity.
  - repeat constructor; simpl; lia.
Defined.

(** The conversion of the row indices [2,0,1,0] over three rows. *)
Lemma cusparsecoo2csr_row_pointers_witness :
  let r := run (@cusparse_ref toolkit_enumerators (unmodelled 7))
             (@cusparsecoo2csr toolkit_enumerators 1 100 4 3 400 7)
             coo_scenario in
  exists csr : list Z,
    result r = Normal tt
    /\ load 400 (3 + 1) (world_after r) = Some csr
    /\ Z.of_nat (length csr) = 3 + 1
    /\ nondecreasing csr
    /\ head csr = Some 0
    /\ last csr = Some 4.
Proof.
  apply (@cusparsecoo2csr_row_pointers toolkit_enumerators (unmodelled 7)
           coo_scenario 1 7 100 4 3 400 [2; 0; 1; 0]).
  - eexists; reflexivity.
  - reflexivity.
  - lia.
  - eexists; reflexivity.
  - repeat constructor; simpl; lia.
Defined.

(** The sort by row of the COO scenario completes and leaves it sorted. *)
Lemma cusparsecoosortByRow_sorts_witness :
  let r := run (@cusparse_ref toolkit_enumerators (unmodelled 7))
             (@cusparsecoosortByRow toolkit_enumerators 1 3 9 4 100 200 300
                400 7) coo_scenario in
  result r = Normal tt
  /\ exists rows' cols' perm : list Z,
       load 100 4 (world_after r) = Some rows'
       /\ load 200 4 (world_after r) = Some cols'
       /\ load 300 4 (world_after r) = Some perm
       /\ nondecreasing rows'
       /\ perm ≡ₚ seqZ 0 4.
Proof.
  intros r.
  destruct (@cusparsecoosortByRow_sorts toolkit_enumerators (unmodelled 7)
              toolkit_enumerators_distinct coo_scenario 1 7 3 9 4 100 200 300
              400) as [Hcompletes Hsorted]; [lia | lia | lia |].
  assert (Hdone : result r = Normal tt).
  { apply Hcompletes; eexists; reflexivity. }
  split; [exact Hdone |].
  destruct (Hsorted Hdone)
    as (rows & cols & rows' & cols' & perm & _ & _ & Hr & Hc & Hp & Hnd
        & Hperm & _).
  exists rows', cols', perm. repeat split; assumption.
Defined.

(** * Further properties of the header *)

Section Decoder.

Context `{cusparse_v2_h}.

Local Ltac decoder_cases :=
  unfold cusparse_error_to_string;
  repeat (destruct (decide _) as [? | ?]; try done).

(** X2. The decoder yields the label of success for the success status and
    for no other status: a failure is never reported under the name of
    success. *)
Theorem success_label_iff_success (s : cusparseStatus_t) :
  cusparse_error_to_string s = "CUSPARSE_STATUS_SUCCESS"
  <-> s = CUSPARSE_STATUS_SUCCESS.
Proof. split; [by decoder_cases | intros ->; by decoder_cases]. Qed.

(** X3. The decoder yields the unknown label exactly for the statuses the
    switch does not list. *)
Theorem unknown_label_iff_not_listed (s : cusparseStatus_t) :
  cusparse_error_to_string s = "CUSPARSE_STATUS_UNKNOWN"
  <-> s ∉ named_enumerators.*1.
Proof.
  unfold named_enumerators. simpl. rewrite !not_elem_of_cons. split.
  - intros Hs. revert Hs. decoder_cases. intros _.
    repeat split; try done. apply not_elem_of_nil.
  - intros (? & ? & ? & ? & ? & ? & ? & ? & _). by decoder_cases.
Qed.

(** X4. Short of the unknown label, the label tells the status: two
    statuses with the same label, other than the unknown one, are equal. *)
Theorem label_determines_status (a b : cusparseStatus_t) :
  cusparse_error_to_string a = cusparse_error_to_string b ->
  cusparse_error_to_string a ≠ "CUSPARSE_STATUS_UNKNOWN" ->
  a = b.
Proof.
  unfold cusparse_error_to_string.
  repeat (destruct (decide (a = _)) as [-> | ?]);
    repeat (destruct (decide (b = _)) as [-> | ?]);
    intros Hlabel Hknown; solve [done | discriminate Hlabel].
Qed.

End Decoder.

Section CheckedCalls.

Context `{cusparse_v2_h} {W : Type} (v : vendor W) (w : W).

(** X1. The macro evaluates its argument once and adds nothing of its own:
    the native calls issued and the world left are those of the argument;
    an error the argument throws goes through unchanged, and an error of
    the macro's own is thrown only for a status the argument returned. *)
Theorem CUSPARSE_TRY_evaluates_call_once (call_text : string)
    (call : prog cusparseStatus_t) :
  let c := run v call w in
  let r := run v (CUSPARSE_TRY call_text call) w in
  calls r = calls c
  /\ world_after r = world_after c
  /\ result r =
     match result c with
     | Raised e => Raised e
     | Normal status =>
         if decide (status = CUSPARSE_STATUS_SUCCESS) then Normal tt
         else Raised (Build_cusparse_error
                        (failure_message call_text status))
     end.
Proof.
  cbv zeta. rewrite run_CUSPARSE_TRY. unfold calls, world_after, result.
  destruct (run v call w) as [[[status | e] w1] t1]; simpl; [| done].
  by destruct (decide _).
Qed.

Context (handle : cusparseHandle_t) (stream : cudaStream_t).
Context (m n k nnz lda ldc : Z).
Context (vals vals_sorted d_P cooRowInd csrRowPtr cooRows cooCols P pBuffer
         alpha A cscValB cscColPtrB cscRowIndB beta C : ptr).

(** X5. The conversion wrapper returns exactly when the stream binding and
    the native conversion both hand back success.  Once the binding has
    succeeded the conversion is issued on the world the binding left, and
    its failure is raised under the text of the conversion call. *)
Theorem cusparsecoo2csr_returns_iff_both_succeed :
  let bound := v _ (cusparseSetStream handle stream) w in
  let op := cusparseXcoo2csr handle cooRowInd nnz m csrRowPtr
              CUSPARSE_INDEX_BASE_ZERO in
  let done := v _ op bound.2 in
  let r := run v (cusparsecoo2csr handle cooRowInd nnz m csrRowPtr stream) w in
  (result r = Normal tt
   <-> bound.1 = CUSPARSE_STATUS_SUCCESS /\ done.1 = CUSPARSE_STATUS_SUCCESS)
  /\ (bound.1 = CUSPARSE_STATUS_SUCCESS ->
      calls r = [Called (cusparseSetStream handle stream); Called op]
      /\ world_after r = done.2)
  /\ (bound.1 = CUSPARSE_STATUS_SUCCESS ->
      done.1 ≠ CUSPARSE_STATUS_SUCCESS ->
      result r =
      Raised (Build_cusparse_error
                (failure_message
                   "cusparseXcoo2csr(handle, cooRowInd, nnz, m, csrRowPtr, CUSPARSE_INDEX_BASE_ZERO)"
                   done.1))).
Proof.
  cbv zeta. rewrite run_cusparsecoo2csr. cbv zeta.
  unfold result, calls, world_after.
  destruct (decide _) as [Hb | Hb]; simpl.
  - destruct (decide _) as [Hd | Hd]; simpl; intuition congruence.
  - intuition congruence.
Qed.

(** X6. The buffer sizing wrapper returns exactly when the stream binding
    and the native query both hand back success, and what it returns is the
    size the native query wrote; a failure of the query is raised under the
    text of the query call, and no size is returned. *)
Theorem cusparsecoosort_bufferSizeExt_returns_native_size :
  let bound := v _ (cusparseSetStream handle stream) w in
  let op := cusparseXcoosort_bufferSizeExt handle m n nnz cooRows cooCols in
  let done := v _ op bound.2 in
  let r := run v (cusparsecoosort_bufferSizeExt handle m n nnz cooRows cooCols
                    stream) w in
  (forall val : size_t,
     result r = Normal val
     <-> bound.1 = CUSPARSE_STATUS_SUCCESS
         /\ done.1.1 = CUSPARSE_STATUS_SUCCESS /\ val = done.1.2)
  /\ (bound.1 = CUSPARSE_STATUS_SUCCESS ->
      calls r = [Called (cusparseSetStream handle stream); Called op]
      /\ world_after r = done.2)
  /\ (bound.1 = CUSPARSE_STATUS_SUCCESS ->
      done.1.1 ≠ CUSPARSE_STATUS_SUCCESS ->
      result r =
      Raised (Build_cusparse_error
                (failure_message
                   "cusparseXcoosort_bufferSizeExt(handle, m, n, nnz, cooRows, cooCols, &val)"
                   done.1.1))).
Proof.
  cbv zeta. rewrite run_cusparsecoosort_bufferSizeExt. cbv zeta.
  unfold result, calls, world_after.
  destruct (decide _) as [Hb | Hb]; simpl.
  - destruct (decide _) as [Hd | Hd]; simpl; intuition congruence.
  - intuition congruence.
Qed.

(** X7. The sort wrapper returns exactly when the stream binding and the
    native sort both hand back success.  Once the binding has succeeded the
    sort is issued on the world the binding left, and its failure is raised
    under the text of the sort call. *)
Theorem cusparsecoosortByRow_returns_iff_both_succeed :
  let bound := v _ (cusparseSetStream handle stream) w in
  let op := cusparseXcoosortByRow handle m n nnz cooRows cooCols P pBuffer in
  let done := v _ op bound.2 in
  let r := run v (cusparsecoosortByRow handle m n nnz cooRows cooCols P
                    pBuffer stream) w in
  (result r = Normal tt
   <-> bound.1 = CUSPARSE_STATUS_SUCCESS /\ done.1 = CUSPARSE_STATUS_SUCCESS)
  /\ (bound.1 = CUSPARSE_STATUS_SUCCESS ->
      calls r = [Called (cusparseSetStream handle stream); Called op]
      /\ world_after r = done.2)
  /\ (bound.1 = CUSPARSE_STATUS_SUCCESS ->
      done.1 ≠ CUSPARSE_STATUS_SUCCESS ->
      result r =
      Raised (Build_cusparse_error
                (failure_message
                   "cusparseXcoosortByRow(handle, m, n, nnz, cooRows, cooCols, P, pBuffer)"
                   done.1))).
Proof.
  cbv zeta. rewrite run_cusparsecoosortByRow. cbv zeta.
  unfold result, calls, world_after.
  destruct (decide _) as [Hb | Hb]; simpl.
  - destruct (decide _) as [Hd | Hd]; simpl; intuition congruence.
  - intuition congruence.
Qed.

(** X8. The gather wrapper under the checking macro, as a caller writes it:
    it returns exactly when the stream binding and the native gather both
    hand back success; a failed binding is raised under the binding's own
    text, and a failed gather under the text the caller's macro call
    carries. *)
Theorem checked_cusparsegthr (call_text : string) (T : value_type) :
  let bound := v _ (cusparseSetStream handle stream) w in
  let op := match T with
            | c_double =>
                cusparseDgthr handle nnz vals vals_sorted d_P
                  CUSPARSE_INDEX_BASE_ZERO
            | c_float =>
                cusparseSgthr handle nnz vals vals_sorted d_P
                  CUSPARSE_INDEX_BASE_ZERO
            end in
  let done := v _ op bound.2 in
  let r := run v (CUSPARSE_TRY call_text
                    (cusparsegthr T handle nnz vals vals_sorted d_P stream))
             w in
  (result r = Normal tt
   <-> bound.1 = CUSPARSE_STATUS_SUCCESS /\ done.1 = CUSPARSE_STATUS_SUCCESS)
  /\ (bound.1 ≠ CUSPARSE_STATUS_SUCCESS ->
      result r =
      Raised (Build_cusparse_error
                (failure_message "cusparseSetStream(handle, stream)"
                   bound.1)))
  /\ (bound.1 = CUSPARSE_STATUS_SUCCESS ->
      done.1 ≠ CUSPARSE_STATUS_SUCCESS ->
      result r =
      Raised (Build_cusparse_error (failure_message call_text done.1))).
Proof.
  cbv zeta. rewrite run_CUSPARSE_TRY, run_cusparsegthr. cbv zeta.
  unfold result.
  destruct (decide _) as [Hb | Hb]; simpl.
  - destruct (decide _) as [Hd | Hd]; simpl; intuition congruence.
  - intuition congruence.
Qed.

(** X9. A gemmi overload under the checking macro: the native routine is
    the only native call, the check returns exactly when the routine hands
    back success, and a failure is raised under the text the caller's macro
    call carries. *)
Theorem checked_cusparsegemmi (call_text : string) (T : value_type) :
  let op := match T with
            | c_float =>
                cusparseSgemmi handle m n k nnz alpha A lda cscValB
                  cscColPtrB cscRowIndB beta C ldc
            | c_double =>
                cusparseDgemmi handle m n k nnz alpha A lda cscValB
                  cscColPtrB cscRowIndB beta C ldc
            end in
  let done := v _ op w in
  let r := run v (CUSPARSE_TRY call_text
                    (cusparsegemmi T handle m n k nnz alpha A lda cscValB
                       cscColPtrB cscRowIndB beta C ldc)) w in
  calls r = [Called op]
  /\ world_after r = done.2
  /\ (result r = Normal tt <-> done.1 = CUSPARSE_STATUS_SUCCESS)
  /\ (done.1 ≠ CUSPARSE_STATUS_SUCCESS ->
      result r =
      Raised (Build_cusparse_error (failure_message call_text done.1))).
Proof.
  cbv zeta. rewrite run_CUSPARSE_TRY, run_cusparsegemmi. cbv zeta.
  unfold result, calls, world_after.
  destruct (decide _) as [Hd | Hd]; simpl; intuition congruence.
Qed.

End CheckedCalls.

Section FreshBinding.

Context `{cusparse_v2_h} {W : Type} (v : vendor W).

Lemma bound_trace_app (t1 t2 : list call) :
  bound_trace t1 -> bound_trace t2 -> bound_trace (t1 ++ t2).
Proof.
  induction 1 as [| handle stream t Ht IH | handle stream op t Hop Hh Ht IH];
    intros H2; simpl.
  - exact H2.
  - apply bound_bind. by apply IH.
  - apply bound_op; [done | done |]. by apply IH.
Qed.

(** X10. Every stream-taking wrapper issues its native operation right
    after a binding of the stream on the very handle of the operation, and
    so does any sequence of such wrappers: a later call never relies on the
    binding an earlier call made.  The gemmi overloads do not keep this
    discipline. *)
Theorem every_operation_freshly_bound :
  (forall (w : W) (T : value_type) (handle : cusparseHandle_t) (nnz : Z)
          (vals vals_sorted d_P : ptr) (stream : cudaStream_t),
     bound_trace
       (calls (run v (cusparsegthr T handle nnz vals vals_sorted d_P stream)
                 w)))
  /\ (forall (w : W) (handle : cusparseHandle_t) (cooRowInd : ptr) (nnz m : Z)
             (csrRowPtr : ptr) (stream : cudaStream_t),
        bound_trace
          (calls (run v (cusparsecoo2csr handle cooRowInd nnz m csrRowPtr
                           stream) w)))
  /\ (forall (w : W) (handle : cusparseHandle_t) (m n nnz : Z)
             (cooRows cooCols : ptr) (stream : cudaStream_t),
        bound_trace
          (calls (run v (cusparsecoosort_bufferSizeExt handle m n nnz cooRows
                           cooCols stream) w)))
  /\ (forall (w : W) (handle : cusparseHandle_t) (m n nnz : Z)
             (cooRows cooCols P pBuffer : ptr) (stream : cudaStream_t),
        bound_trace
          (calls (run v (cusparsecoosortByRow handle m n nnz cooRows cooCols
                           P pBuffer stream) w)))
  /\ (forall (A B : Type) (p : prog A) (q : A -> prog B),
        (forall w : W, bound_trace (calls (run v p w))) ->
        (forall (a : A) (w : W), bound_trace (calls (run v (q a) w))) ->
        forall w : W, bound_trace (calls (run v (p ≫= q) w)))
  /\ (forall (w : W) (T : value_type) (handle : cusparseHandle_t)
             (m n k nnz : Z) (alpha A : ptr) (lda : Z)
             (cscValB cscColPtrB cscRowIndB beta C : ptr) (ldc : Z),
        ~ bound_trace
            (calls (run v (cusparsegemmi T handle m n k nnz alpha A lda
                             cscValB cscColPtrB cscRowIndB beta C ldc) w))).
Proof.
  repeat split.
  - intros w T handle nnz vals vals_sorted d_P stream.
    rewrite run_cusparsegthr. cbv zeta. unfold calls.
    destruct (decide _); simpl; [| apply bound_bind, bound_nil].
    destruct T; by apply bound_op; [| | apply bound_nil].
  - intros w handle cooRowInd nnz m csrRowPtr stream.
    rewrite run_cusparsecoo2csr. cbv zeta. unfold calls.
    destruct (decide _); simpl; [| apply bound_bind, bound_nil].
    by apply bound_op; [| | apply bound_nil].
  - intros w handle m n nnz cooRows cooCols stream.
    rewrite run_cusparsecoosort_bufferSizeExt. cbv zeta. unfold calls.
    destruct (decide _); simpl; [| apply bound_bind, bound_nil].
    by apply bound_op; [| | apply bound_nil].
  - intros w handle m n nnz cooRows cooCols P pBuffer stream.
    rewrite run_cusparsecoosortByRow. cbv zeta. unfold calls.
    destruct (decide _); simpl; [| apply bound_bind, bound_nil].
    by apply bound_op; [| | apply bound_nil].
  - intros A B p q Hp Hq w. rewrite run_bind.
    specialize (Hp w). unfold calls in *.
    destruct (run v p w) as [[[a | e] w1] t1]; simpl in *; [| exact Hp].
    specialize (Hq a w1).
    destruct (run v (q a) w1) as [[o w2] t2]; simpl in *.
    by apply bound_trace_app.
  - intros w T handle m n k nnz alpha A lda cscValB cscColPtrB cscRowIndB
      beta C ldc Hbound.
    rewrite run_cusparsegemmi in Hbound. cbv zeta in Hbound.
    unfold calls in Hbound. simpl in Hbound.
    destruct T; inversion Hbound.
Qed.

End FreshBinding.

Section CallerHandle.

Context `{cusparse_v2_h} {W : Type} (v : vendor W) (w : W).
Context (handle : cusparseHandle_t) (stream : cudaStream_t).
Context (m n k nnz lda ldc : Z).
Context (vals vals_sorted d_P cooRowInd csrRowPtr cooRows cooCols P pBuffer
         alpha A cscValB cscColPtrB cscRowIndB beta C : ptr).

(** X11. Whatever the vendor does, every native call a wrapper issues is
    issued on the handle the caller passed: no wrapper touches another
    handle. *)
Theorem native_calls_on_caller_handle :
  (forall T : value_type,
     Forall (fun c => handle_of c = handle)
       (calls (run v (cusparsegthr T handle nnz vals vals_sorted d_P stream)
                 w)))
  /\ Forall (fun c => handle_of c = handle)
       (calls (run v (cusparsecoo2csr handle cooRowInd nnz m csrRowPtr stream)
                 w))
  /\ Forall (fun c => handle_of c = handle)
       (calls (run v (cusparsecoosort_bufferSizeExt handle m n nnz cooRows
                        cooCols stream) w))
  /\ Forall (fun c => handle_of c = handle)
       (calls (run v (cusparsecoosortByRow handle m n nnz cooRows cooCols P
                        pBuffer stream) w))
  /\ (forall T : value_type,
        Forall (fun c => handle_of c = handle)
          (calls (run v (cusparsegemmi T handle m n k nnz alpha A lda cscValB
                           cscColPtrB cscRowIndB beta C ldc) w))).
Proof.
  repeat split; try intros T;
    rewrite ?run_cusparsegthr, ?run_cusparsecoo2csr,
      ?run_cusparsecoosort_bufferSizeExt, ?run_cusparsecoosortByRow,
      ?run_cusparsegemmi;
    cbv zeta; unfold calls; try destruct (decide _); try destruct T; simpl;
    by repeat constructor.
Qed.

End CallerHandle.

(** * The further properties on concrete inputs *)

Lemma label_determines_status_witness :
  @cusparse_error_to_string toolkit_enumerators 6
  ≠ "CUSPARSE_STATUS_UNKNOWN"
  /\ (6 : cusparseStatus_t) = 6.
Proof.
  assert (Hknown : @cusparse_error_to_string toolkit_enumerators 6
                   ≠ "CUSPARSE_STATUS_UNKNOWN")
    by (vm_compute; discriminate).
  split; [exact Hknown |].
  apply (@label_determines_status toolkit_enumerators 6 6);
    [reflexivity | exact Hknown].
Defined.

(** The conversion against a script on which the binding succeeds and the
    native conversion hands back 3. *)
Lemma cusparsecoo2csr_returns_iff_both_succeed_witness :
  result (run (scripted 0)
            (@cusparsecoo2csr toolkit_enumerators 1 100 4 3 400 7) [0; 3])
  = Raised (Build_cusparse_error
              "cuSparse error encountered at: call='cusparseXcoo2csr(handle, cooRowInd, nnz, m, csrRowPtr, CUSPARSE_INDEX_BASE_ZERO)', Reason=3:CUSPARSE_STATUS_INVALID_VALUE").
Proof.
  apply (@cusparsecoo2csr_returns_iff_both_succeed toolkit_enumerators _
           (scripted 0) [0; 3] 1 7 3 4 100 400).
  - reflexivity.
  - simpl. lia.
Defined.

(** The buffer sizing against a script on which both calls succeed: the
    size is the one the scripted query writes. *)
Lemma cusparsecoosort_bufferSizeExt_returns_native_size_witness :
  result (run (scripted 0)
            (@cusparsecoosort_bufferSizeExt toolkit_enumerators 1 3 9 4 100
               200 7) [0; 0])
  = Normal 0.
Proof.
  apply (@cusparsecoosort_bufferSizeExt_returns_native_size
           toolkit_enumerators _ (scripted 0) [0; 0] 1 7 3 9 4 100 200).
  repeat split; reflexivity.
Defined.

(** The sort against a script on which the binding succeeds and the native
    sort hands back 7. *)
Lemma cusparsecoosortByRow_returns_iff_both_succeed_witness :
  result (run (scripted 0)
            (@cusparsecoosortByRow toolkit_enumerators 1 3 9 4 100 200 300 400
               7) [0; 7])
  = Raised (Build_cusparse_error
              "cuSparse error encountered at: call='cusparseXcoosortByRow(handle, m, n, nnz, cooRows, cooCols, P, pBuffer)', Reason=7:CUSPARSE_STATUS_INTERNAL_ERROR").
Proof.
  apply (@cusparsecoosortByRow_returns_iff_both_succeed toolkit_enumerators _
           (scripted 0) [0; 7] 1 7 3 9 4 100 200 300 400).
  - reflexivity.
  - simpl. lia.
Defined.

(** The checked gather against a script on which the native gather hands
    back 6. *)
Lemma checked_cusparsegthr_witness :
  result (run (scripted 0)
            (@CUSPARSE_TRY toolkit_enumerators "cusparsegthr(h, nnz, v, s, p, st)"
               (@cusparsegthr toolkit_enumerators c_double 1 4 100 200 300 7))
            [0; 6])
  = Raised (Build_cusparse_error
              "cuSparse error encountered at: call='cusparsegthr(h, nnz, v, s, p, st)', Reason=6:CUSPARSE_STATUS_EXECUTION_FAILED").
Proof.
  apply (@checked_cusparsegthr toolkit_enumerators _ (scripted 0) [0; 6] 1 7 4
           100 200 300 "cusparsegthr(h, nnz, v, s, p, st)" c_double).
  - reflexivity.
  - simpl. lia.
Defined.

(** The checked gemmi against a script on which the native routine hands
    back 2. *)
Lemma checked_cusparsegemmi_witness :
  result (run (scripted 0)
            (@CUSPARSE_TRY toolkit_enumerators "cusparsegemmi(...)"
               (cusparsegemmi c_float 1 3 3 1 4 10 11 1 12 13 14 15 16 1))
            [2])
  = Raised (Build_cusparse_error
              "cuSparse error encountered at: call='cusparsegemmi(...)', Reason=2:CUSPARSE_STATUS_ALLOC_FAILED").
Proof.
  apply (@checked_cusparsegemmi toolkit_enumerators _ (scripted 0) [2] 1 3 3 1
           4 1 1 10 11 12 13 14 15 16 "cusparsegemmi(...)" c_float).
  simpl. lia.
Defined.

(** Buffer sizing on stream 7 followed by the sort on stream 8, on one
    handle: each native operation has its own binding before it. *)
Lemma every_operation_freshly_bound_witness :
  bound_trace
    (calls (run (scripted 0)
              (@cusparsecoosort_bufferSizeExt toolkit_enumerators 1 3 9 4 100
                 200 7
               ≫= fun _ =>
                    @cusparsecoosortByRow toolkit_enumerators 1 3 9 4 100 200
                      300 400 8)
              [0; 0; 0; 0])).
Proof.
  destruct (@every_operation_freshly_bound toolkit_enumerators _ (scripted 0))
    as (_ & _ & Hsize & Hsort & Hseq & _).
  apply Hseq; intros; [apply Hsize | apply Hsort].
Defined.
